(** * Tic-tac-toe game engine (components/tic-tac-toe.tsx)

    A shallow embedding of the game-state engine of the [TicTacToe] React
    component: the board evaluator [calculateWinner], the computer policy
    ([findWinningMove], [makeComputerMove]), the session handlers
    ([handleSquareClick], [jumpToMove], [resetGame], [setMode]) and the
    simulated room registry ([createRoom], [initializeSimulatedGame]).

    React state is a record [State]; a handler reads the state of the render
    it was created in and returns the next state together with the effects it
    emitted (toasts, timers).  Audio playback, confetti and the WebSocket
    transport are external collaborators and are not modelled. *)

From Stdlib Require Import ZArith Lia Bool String Ascii.
From stdpp Require Import base list gmap strings.

Local Open Scope Z_scope.
Local Open Scope nat_scope.

(** ** Values *)

(** Run-time values of a slot typed [Player] ("X" | "O" | null).  A read
    outside an array, or of a slot that a write past the end skipped over,
    yields [undefined]. *)
Inductive Player : Type := PX | PO | PNull | PUndefined.

#[global] Instance Player_eq_dec : EqDecision Player.
Proof. solve_decision. Defined.

(** JavaScript truthiness of a [Player] value. *)
Definition truthy (p : Player) : bool :=
  match p with
  | PX | PO => true
  | PNull | PUndefined => false
  end.

(** The return type of [calculateWinner]: Player | "draw" | null.  [null] is
    [WPlayer PNull]. *)
Inductive Winner : Type := WPlayer (p : Player) | WDraw.

#[global] Instance Winner_eq_dec : EqDecision Winner.
Proof. solve_decision. Defined.

Definition truthyW (w : Winner) : bool :=
  match w with
  | WPlayer p => truthy p
  | WDraw => true
  end.

(** ** Arrays of squares *)

(** [squares[i]] for an array index [i]. *)
Definition aget (squares : list Player) (i : nat) : Player :=
  default PUndefined (squares !! i).

(** [squares[i] = v] for an array index [i]: inside the array the slot is
    replaced; past the end JavaScript grows the array, the skipped slots
    reading back as [undefined]. *)
Definition aset (squares : list Player) (i : nat) (v : Player) : list Player :=
  if decide (i < length squares) then <[i:=v]> squares
  else squares ++ replicate (i - length squares) PUndefined ++ [v].

(** The same with an arbitrary integer.  A negative number is not an array
    index: the write leaves the elements alone and the read of the elements
    is [undefined].  (Such a write leaves a named property on the array
    object, which is not modelled; every caller passes an index it took from
    the array.) *)
Definition agetZ (squares : list Player) (i : Z) : Player :=
  if (i <? 0)%Z then PUndefined else aget squares (Z.to_nat i).

Definition asetZ (squares : list Player) (i : Z) (v : Player) : list Player :=
  if (i <? 0)%Z then squares else aset squares (Z.to_nat i) v.

(** [Array(9).fill(null)] *)
Definition emptyBoard : list Player := replicate 9 PNull.

(** ** Board evaluator *)

Definition lines : list (nat * nat * nat) :=
  [ (0, 1, 2); (3, 4, 5); (6, 7, 8);
    (0, 3, 6); (1, 4, 7); (2, 5, 8);
    (0, 4, 8); (2, 4, 6) ].

(** [squares[a] && squares[a] === squares[b] && squares[a] === squares[c]] *)
Definition lineTest (squares : list Player) (l : nat * nat * nat) : bool :=
  let '(a, b, c) := l in
  truthy (aget squares a)
  && bool_decide (aget squares a = aget squares b)
  && bool_decide (aget squares a = aget squares c).

(** The [for] loop over [lines]: the first line that passes the test returns
    [squares[a]]. *)
Fixpoint scanLines (squares : list Player) (ls : list (nat * nat * nat))
  : option Player :=
  match ls with
  | [] => None
  | l :: rest =>
      if lineTest squares l then Some (aget squares (fst (fst l)))
      else scanLines squares rest
  end.

(** [squares.every((square) => square !== null)] *)
Definition everyNotNull (squares : list Player) : bool :=
  forallb (fun square => negb (bool_decide (square = PNull))) squares.

Definition calculateWinner (squares : list Player) : Winner :=
  match scanLines squares lines with
  | Some p => WPlayer p
  | None => if everyNotNull squares then WDraw else WPlayer PNull
  end.

(** ** Computer opponent: candidate moves *)

(** The loop [for (let i = 0; i < squares.length; i++)] of
    [findWinningMove], started at [i] with [n] iterations left. *)
Fixpoint findWinningMove_from (squares : list Player) (player : Player)
    (i n : nat) : Z :=
  match n with
  | 0 => (-1)%Z
  | S n' =>
      if bool_decide (aget squares i = PNull)
         && bool_decide (calculateWinner (aset squares i player) = WPlayer player)
      then Z.of_nat i
      else findWinningMove_from squares player (S i) n'
  end.

Definition findWinningMove (squares : list Player) (player : Player) : Z :=
  findWinningMove_from squares player 0 (length squares).

(** ** Session state *)

Inductive GameMode : Type := Local | Computer | Online.

#[global] Instance GameMode_eq_dec : EqDecision GameMode.
Proof. solve_decision. Defined.

Module GameHistory.
Record t : Type := mk { squares : list Player; currentPlayer : Player }.
End GameHistory.

Module SimulatedGame.
Record t : Type := mk {
  id : string;
  squares : list Player;
  isXNext : bool;
  playerX : string;
  playerO : option string;
  winner : Winner
}.
End SimulatedGame.

(** The [useState] cells of the component that the engine reads or writes. *)
Record State : Type := mkState {
  squares : list Player;
  isXNext : bool;
  winner : Winner;
  history : list GameHistory.t;
  currentMove : nat;
  gameMode : GameMode;
  roomCode : string;
  isHost : bool;
  playerSymbol : Player;
  opponentConnected : bool;
  isMyTurn : bool;
  showLobby : bool;
  simulatedGames : gmap string SimulatedGame.t;
  useSimulatedMode : bool;
  showConfetti : bool
}.

(** The state of the first render. *)
Definition initialState : State :=
  {| squares := emptyBoard; isXNext := true; winner := WPlayer PNull;
     history := []; currentMove := 0; gameMode := Computer;
     roomCode := ""; isHost := false; playerSymbol := PX;
     opponentConnected := false; isMyTurn := true; showLobby := false;
     simulatedGames := ∅; useSimulatedMode := true; showConfetti := false |}.

(** State setters, one per [useState] setter used by the engine. *)
Definition setSquares (v : list Player) (st : State) : State :=
  mkState v (isXNext st) (winner st) (history st) (currentMove st)
    (gameMode st) (roomCode st) (isHost st) (playerSymbol st)
    (opponentConnected st) (isMyTurn st) (showLobby st) (simulatedGames st)
    (useSimulatedMode st) (showConfetti st).

Definition setIsXNext (v : bool) (st : State) : State :=
  mkState (squares st) v (winner st) (history st) (currentMove st)
    (gameMode st) (roomCode st) (isHost st) (playerSymbol st)
    (opponentConnected st) (isMyTurn st) (showLobby st) (simulatedGames st)
    (useSimulatedMode st) (showConfetti st).

Definition setWinner (v : Winner) (st : State) : State :=
  mkState (squares st) (isXNext st) v (history st) (currentMove st)
    (gameMode st) (roomCode st) (isHost st) (playerSymbol st)
    (opponentConnected st) (isMyTurn st) (showLobby st) (simulatedGames st)
    (useSimulatedMode st) (showConfetti st).

Definition setHistory (v : list GameHistory.t) (st : State) : State :=
  mkState (squares st) (isXNext st) (winner st) v (currentMove st)
    (gameMode st) (roomCode st) (isHost st) (playerSymbol st)
    (opponentConnected st) (isMyTurn st) (showLobby st) (simulatedGames st)
    (useSimulatedMode st) (showConfetti st).

Definition setCurrentMove (v : nat) (st : State) : State :=
  mkState (squares st) (isXNext st) (winner st) (history st) v
    (gameMode st) (roomCode st) (isHost st) (playerSymbol st)
    (opponentConnected st) (isMyTurn st) (showLobby st) (simulatedGames st)
    (useSimulatedMode st) (showConfetti st).

Definition setGameMode (v : GameMode) (st : State) : State :=
  mkState (squares st) (isXNext st) (winner st) (history st) (currentMove st)
    v (roomCode st) (isHost st) (playerSymbol st)
    (opponentConnected st) (isMyTurn st) (showLobby st) (simulatedGames st)
    (useSimulatedMode st) (showConfetti st).

Definition setRoomCode (v : string) (st : State) : State :=
  mkState (squares st) (isXNext st) (winner st) (history st) (currentMove st)
    (gameMode st) v (isHost st) (playerSymbol st)
    (opponentConnected st) (isMyTurn st) (showLobby st) (simulatedGames st)
    (useSimulatedMode st) (showConfetti st).

Definition setIsHost (v : bool) (st : State) : State :=
  mkState (squares st) (isXNext st) (winner st) (history st) (currentMove st)
    (gameMode st) (roomCode st) v (playerSymbol st)
    (opponentConnected st) (isMyTurn st) (showLobby st) (simulatedGames st)
    (useSimulatedMode st) (showConfetti st).

Definition setPlayerSymbol (v : Player) (st : State) : State :=
  mkState (squares st) (isXNext st) (winner st) (history st) (currentMove st)
    (gameMode st) (roomCode st) (isHost st) v
    (opponentConnected st) (isMyTurn st) (showLobby st) (simulatedGames st)
    (useSimulatedMode st) (showConfetti st).

Definition setOpponentConnected (v : bool) (st : State) : State :=
  mkState (squares st) (isXNext st) (winner st) (history st) (currentMove st)
    (gameMode st) (roomCode st) (isHost st) (playerSymbol st)
    v (isMyTurn st) (showLobby st) (simulatedGames st)
    (useSimulatedMode st) (showConfetti st).

Definition setIsMyTurn (v : bool) (st : State) : State :=
  mkState (squares st) (isXNext st) (winner st) (history st) (currentMove st)
    (gameMode st) (roomCode st) (isHost st) (playerSymbol st)
    (opponentConnected st) v (showLobby st) (simulatedGames st)
    (useSimulatedMode st) (showConfetti st).

Definition setShowLobby (v : bool) (st : State) : State :=
  mkState (squares st) (isXNext st) (winner st) (history st) (currentMove st)
    (gameMode st) (roomCode st) (isHost st) (playerSymbol st)
    (opponentConnected st) (isMyTurn st) v (simulatedGames st)
    (useSimulatedMode st) (showConfetti st).

(** [setSimulatedGames] is only ever called with an updater function. *)
Definition setSimulatedGames
    (f : gmap string SimulatedGame.t → gmap string SimulatedGame.t)
    (st : State) : State :=
  mkState (squares st) (isXNext st) (winner st) (history st) (currentMove st)
    (gameMode st) (roomCode st) (isHost st) (playerSymbol st)
    (opponentConnected st) (isMyTurn st) (showLobby st) (f (simulatedGames st))
    (useSimulatedMode st) (showConfetti st).

Definition setUseSimulatedMode (v : bool) (st : State) : State :=
  mkState (squares st) (isXNext st) (winner st) (history st) (currentMove st)
    (gameMode st) (roomCode st) (isHost st) (playerSymbol st)
    (opponentConnected st) (isMyTurn st) (showLobby st) (simulatedGames st)
    v (showConfetti st).

Definition setShowConfetti (v : bool) (st : State) : State :=
  mkState (squares st) (isXNext st) (winner st) (history st) (currentMove st)
    (gameMode st) (roomCode st) (isHost st) (playerSymbol st)
    (opponentConnected st) (isMyTurn st) (showLobby st) (simulatedGames st)
    (useSimulatedMode st) v.

(** ** Effects *)

(** Callbacks handed to [setTimeout]. *)
Inductive Callback : Type :=
  | CbJoinSimulatedGame (gameId : string) (isSimulated : bool)
  | CbHideConfetti.

(** What a handler emits besides state updates: a [toast] notification or a
    scheduled timer. *)
Inductive Effect : Type :=
  | Toast (title description : string)
  | SetTimeout (callback : Callback) (ms : Z).

(** ** Strings *)

(** [s.substring(start, end)] for [start <= end]. *)
Definition jsSubstring (start end_ : nat) (s : string) : string :=
  String.substring start (end_ - start) s.

Definition upperAscii (c : ascii) : ascii :=
  let n := nat_of_ascii c in
  if (97 <=? n) && (n <=? 122) then ascii_of_nat (n - 32) else c.

(** [s.toUpperCase()] on ASCII text. *)
Fixpoint toUpperCase (s : string) : string :=
  match s with
  | EmptyString => EmptyString
  | String c rest => String (upperAscii c) (toUpperCase rest)
  end.

(** ** Simulated room registry *)

(** [updateSimulatedGame]; [updatedGame.squares] is always an array here. *)
Definition updateSimulatedGame (gameId : string)
    (updatedGame : SimulatedGame.t) (st : State) : State :=
  setSimulatedGames (fun prev => <[gameId := updatedGame]> prev) st.

Definition initializeSimulatedGame (gameId : string) (st : State)
  : State * list Effect :=
  let newGame :=
    SimulatedGame.mk gameId emptyBoard true "host" None (WPlayer PNull) in
  let st1 := setSimulatedGames (fun prev => <[gameId := newGame]> prev) st in
  let st2 := setOpponentConnected false st1 in
  (st2, [SetTimeout (CbJoinSimulatedGame gameId true) 3000%Z]).

(** [createRoom]; [randomText] is the value of
    [Math.random().toString(36)] at the call. *)
Definition createRoom (randomText : string) (st : State)
  : State * list Effect :=
  let newRoomCode := toUpperCase (jsSubstring 2 8 randomText) in
  let st1 := setRoomCode newRoomCode st in
  let st2 := setIsHost true st1 in
  let st3 := setPlayerSymbol PX st2 in
  let '(st4, eff) :=
    if useSimulatedMode st then initializeSimulatedGame newRoomCode st3
    else (st3, []) in
  (st4, eff ++ [Toast "Room created"
                  ("Share the code " +:+ newRoomCode +:+ " with your friend.")]).

(** ** Session handlers *)

(** The mark written by [handleSquareClick]. *)
Definition moverMark (st : State) : Player :=
  if bool_decide (gameMode st = Online) then playerSymbol st
  else if isXNext st then PX else PO.

Definition handleSquareClick (i : Z) (st : State) : State * list Effect :=
  if truthyW (winner st) || truthy (agetZ (squares st) i) then (st, [])
  else if bool_decide (gameMode st = Online) && negb (isMyTurn st) then
    (st, [Toast "Not your turn" "Wait for your opponent to make a move."])
  else if bool_decide (gameMode st = Online) && negb (opponentConnected st) then
    (st, [Toast "Waiting for opponent" "Your opponent hasn't joined yet."])
  else if bool_decide (gameMode st = Computer) && negb (isXNext st) then (st, [])
  else
    let newSquares := asetZ (squares st) i (moverMark st) in
    let st1 := setSquares newSquares st in
    let st2 :=
      if negb (bool_decide (gameMode st = Online)) then
        setIsXNext (negb (isXNext st)) st1
      else
        let st1' := setIsMyTurn false st1 in
        if useSimulatedMode st && negb (String.eqb (roomCode st) "") then
          match simulatedGames st !! roomCode st with
          | Some game =>
              updateSimulatedGame (roomCode st)
                (SimulatedGame.mk (SimulatedGame.id game) newSquares
                   (negb (SimulatedGame.isXNext game))
                   (SimulatedGame.playerX game) (SimulatedGame.playerO game)
                   (SimulatedGame.winner game))
                st1'
          | None => st1'
          end
        else st1' in
    let newHistory :=
      take (currentMove st + 1) (history st)
      ++ [GameHistory.mk newSquares (if isXNext st then PX else PO)] in
    let st3 := setHistory newHistory st2 in
    let st4 := setCurrentMove (length newHistory - 1) st3 in
    (st4, []).

Definition jumpToMove (move : Z) (st : State) : State * list Effect :=
  if (move <? 0)%Z || (Z.of_nat (length (history st)) <=? move)%Z then (st, [])
  else if bool_decide (gameMode st = Online) then
    (st, [Toast "Not available" "Time travel is not available in online mode."])
  else
    match history st !! Z.to_nat move with
    | Some entry =>
        let st1 := setCurrentMove (Z.to_nat move) st in
        let st2 := setSquares (GameHistory.squares entry) st1 in
        let st3 :=
          setIsXNext (bool_decide (GameHistory.currentPlayer entry = PO)) st2 in
        let st4 := setWinner (calculateWinner (GameHistory.squares entry)) st3 in
        (st4, [])
    | None => (st, [])  (* not taken: [move] is a valid index here *)
    end.

(** [resetGame] run from a handler whose render state is [env], on top of
    the updates already queued in [st]. *)
Definition resetGame_from (env : State) (notifyOpponent : bool) (st : State)
  : State * list Effect :=
  let st1 := setSquares emptyBoard st in
  let st2 := setIsXNext true st1 in
  let st3 := setWinner (WPlayer PNull) st2 in
  let st4 := setHistory [] st3 in
  let st5 := setCurrentMove 0 st4 in
  let st6 := setShowConfetti false st5 in
  let st7 :=
    if bool_decide (gameMode env = Online) then
      let st6' := setIsMyTurn (bool_decide (playerSymbol env = PX)) st6 in
      if useSimulatedMode env && negb (String.eqb (roomCode env) "") then
        match simulatedGames env !! roomCode env with
        | Some game =>
            updateSimulatedGame (roomCode env)
              (SimulatedGame.mk (SimulatedGame.id game) emptyBoard true
                 (SimulatedGame.playerX game) (SimulatedGame.playerO game)
                 (WPlayer PNull))
              st6'
        | None => st6'
        end
      else st6'
    else st6 in
  (st7, [Toast "Game reset" "Starting a new game!"]).

Definition resetGame (notifyOpponent : bool) (st : State)
  : State * list Effect :=
  resetGame_from st notifyOpponent st.

Definition setMode (mode : GameMode) (st : State) : State * list Effect :=
  if bool_decide (mode = gameMode st) then (st, [])
  else
    let st1 := setGameMode mode st in
    let '(st2, eff) := resetGame_from st false st1 in
    let st3 :=
      if bool_decide (mode = Online) then
        setUseSimulatedMode true (setShowLobby true st2)
      else setOpponentConnected false (setRoomCode "" st2) in
    (st3, eff).

(** The "Calculate winner" effect, which React runs after a render in which
    [squares] was replaced: it stores the outcome derived from the board. *)
Definition playerName (p : Player) : string :=
  match p with
  | PX => "X"
  | PO => "O"
  | PNull => "null"
  | PUndefined => "undefined"
  end.

Definition calculateWinnerEffect (st : State) : State * list Effect :=
  let calculatedWinner := calculateWinner (squares st) in
  let st1 := setWinner calculatedWinner st in
  if truthyW calculatedWinner then
    let '(st2, eff) :=
      match calculatedWinner with
      | WDraw =>
          (setShowConfetti false st1,
           [Toast "It's a draw!" "No one wins this round."])
      | WPlayer p =>
          (setShowConfetti true st1,
           [Toast ("Player " +:+ playerName p +:+ " wins!")
              "Congratulations on your victory!";
            SetTimeout CbHideConfetti 6000%Z])
      end in
    let st3 :=
      if bool_decide (gameMode st = Online) && useSimulatedMode st
         && negb (String.eqb (roomCode st) "") then
        match simulatedGames st !! roomCode st with
        | Some game =>
            updateSimulatedGame (roomCode st)
              (SimulatedGame.mk (SimulatedGame.id game)
                 (SimulatedGame.squares game) (SimulatedGame.isXNext game)
                 (SimulatedGame.playerX game) (SimulatedGame.playerO game)
                 calculatedWinner)
              st2
        | None => st2
        end
      else st2 in
    (st3, eff)
  else (st1, []).

(** ** Computer opponent policy *)

Definition corners : list nat := [0; 2; 6; 8].

(** [squaresCopy.map((square, i) => (square === null ? i : -1))
      .filter((i) => i !== -1)] *)
Definition availableSquares (squaresCopy : list Player) : list Z :=
  filter (λ i, i ≠ (-1)%Z)
    (imap (λ i square,
            if bool_decide (square = PNull) then Z.of_nat i else (-1)%Z)
       squaresCopy).

(** The index that [makeComputerMove] passes to [handleSquareClick], or
    [None] when it returns without a move.  [random n] stands for
    [Math.floor(Math.random() * n)], which lies below [n] for [n > 0], so the
    two random picks always read inside their arrays. *)
Definition chooseMove (random : nat → nat) (squaresCopy : list Player)
  : option Z :=
  if truthyW (calculateWinner squaresCopy) || everyNotNull squaresCopy then None
  else
    let winningMove := findWinningMove squaresCopy PO in
    if negb (winningMove =? -1)%Z then Some winningMove
    else
      let blockingMove := findWinningMove squaresCopy PX in
      if negb (blockingMove =? -1)%Z then Some blockingMove
      else if bool_decide (aget squaresCopy 4 = PNull) then Some 4%Z
      else
        let availableCorners :=
          filter (λ i, aget squaresCopy i = PNull) corners in
        if 0 <? length availableCorners then
          Z.of_nat <$> availableCorners !! random (length availableCorners)
        else
          let available := availableSquares squaresCopy in
          if 0 <? length available then available !! random (length available)
          else None.

Definition makeComputerMove (random : nat → nat) (st : State)
  : State * list Effect :=
  match chooseMove random (squares st) with
  | Some i => handleSquareClick i st
  | None => (st, [])
  end.

(** ** Sessions *)

(** What can happen to a session played on one device: a click on a square,
    a click in the history list, the reset button, a mode tab, or the
    computer's timer firing (with the random source it draws from). *)
Inductive Event : Type :=
  | EvClick (i : Z)
  | EvJump (move : Z)
  | EvReset
  | EvSetMode (mode : GameMode)
  | EvComputerTimer (random : nat → nat).

Definition handle (ev : Event) (st : State) : State * list Effect :=
  match ev with
  | EvClick i => handleSquareClick i st
  | EvJump move => jumpToMove move st
  | EvReset => resetGame true st
  | EvSetMode mode => setMode mode st
  | EvComputerTimer random => makeComputerMove random st
  end.

(** One event followed by the winner effect of the render it causes.  The
    render in between, in which [winner] may lag behind the board, is not a
    state of its own here; the online effects are not part of a step. *)
Definition step (ev : Event) (st : State) : State :=
  fst (calculateWinnerEffect (fst (handle ev st))).

Definition run (evs : list Event) (st : State) : State :=
  foldl (λ s ev, step ev s) st evs.

(** Sessions reachable from the first render. *)
Inductive reachable : State → Prop :=
  | reachable_init : reachable initialState
  | reachable_step st ev : reachable st → reachable (step ev st).

(** ** Specification vocabulary *)

(** All three cells of line [l] are non-empty and hold the mark [p]. *)
Definition wins (squares : list Player) (l : nat * nat * nat) (p : Player)
  : Prop :=
  truthy p = true
  ∧ aget squares l.1.1 = p ∧ aget squares l.1.2 = p ∧ aget squares l.2 = p.

Definition hasLine (squares : list Player) (p : Player) : Prop :=
  ∃ l, l ∈ lines ∧ wins squares l p.

Definition noWin (squares : list Player) : Prop :=
  ∀ l p, l ∈ lines → ¬ wins squares l p.

(** Line number [k] of the table is the first one that wins, for [p]. *)
Definition firstWin (squares : list Player) (k : nat) (p : Player) : Prop :=
  ∃ l, lines !! k = Some l ∧ wins squares l p
       ∧ ∀ j l' q, j < k → lines !! j = Some l' → ¬ wins squares l' q.

(** Placing [player] on the empty cell [i] makes [player] the winner. *)
Definition winsAt (squares : list Player) (player : Player) (i : nat) : Prop :=
  aget squares i = PNull
  ∧ calculateWinner (aset squares i player) = WPlayer player.

(** A click is rejected: the game is over, the cell is taken, or it is not
    the clicking side's turn (online: not the local player's turn; against
    the computer: O is to move). *)
Definition rejected (i : Z) (st : State) : Prop :=
  truthyW (winner st) = true
  ∨ truthy (agetZ (squares st) i) = true
  ∨ (gameMode st = Online ∧ isMyTurn st = false)
  ∨ (gameMode st = Computer ∧ isXNext st = false).

(** A click is accepted: none of the guards of [handleSquareClick] fires. *)
Definition accepted (i : Z) (st : State) : Prop :=
  truthyW (winner st) = false
  ∧ truthy (agetZ (squares st) i) = false
  ∧ (gameMode st = Online → isMyTurn st = true ∧ opponentConnected st = true)
  ∧ (gameMode st = Computer → isXNext st = true).

(** Legal alternating play on a bare board: X starts on the empty board;
    while the evaluator reports no outcome, the side to move marks one empty
    cell and the turn passes. *)
Inductive legalPlay : list Player → bool → Prop :=
  | legalPlay_start : legalPlay emptyBoard true
  | legalPlay_move board xNext i :
      legalPlay board xNext →
      calculateWinner board = WPlayer PNull →
      i < 9 → aget board i = PNull →
      legalPlay (aset board i (if xNext then PX else PO)) (negb xNext).

(** The two marks never both own a complete line. *)
Definition exclusive (squares : list Player) : Prop :=
  ¬ (hasLine squares PX ∧ hasLine squares PO).

(** After every step the stored outcome is the one derived from the board,
    and neither the board nor any snapshot has lines of both marks. *)
Definition sessionInv (st : State) : Prop :=
  winner st = calculateWinner (squares st)
  ∧ exclusive (squares st)
  ∧ Forall (λ e, exclusive (GameHistory.squares e)) (history st).

(** The board and history parts of the invariant. *)
Definition boardsInv (st : State) : Prop :=
  exclusive (squares st)
  ∧ Forall (λ e, exclusive (GameHistory.squares e)) (history st).

(** ** Sample sessions *)

(** A short local game: X on 0, O on 1, X on 4. *)
Definition localThreeMoves : State :=
  run [EvSetMode Local; EvClick 0; EvClick 1; EvClick 4] initialState.

(** The same game won by X on the diagonal. *)
Definition localWonByX : State :=
  run [EvSetMode Local; EvClick 0; EvClick 1; EvClick 4; EvClick 2; EvClick 8]
    initialState.

(** Against the computer, after X's first move. *)
Definition computerToMove : State := run [EvClick 0] initialState.

(** The online tab just opened: no room yet. *)
Definition onlineLobby : State := fst (setMode Online initialState).

(** An online session in which the host has created a room, the opponent
    has connected and the host has played the centre. *)
Definition onlineAfterMove : State :=
  fst (handleSquareClick 4
         (setOpponentConnected true
            (fst (createRoom "0.4fzyo82mvyr" onlineLobby)))).

(** ** Joining a room *)

(** [joinSimulatedGame] run from a handler or timer whose render state is
    [env], on top of the updates already queued in [st].  The room looked up
    and copied is the one of [env]. *)
Definition joinSimulatedGame_from (env : State) (gameId : string)
    (isSimulated : bool) (st : State) : State * list Effect :=
  let st1 :=
    match simulatedGames env !! gameId, isSimulated with
    | None, false =>
        setSimulatedGames
          (fun prev =>
             <[gameId := SimulatedGame.mk gameId emptyBoard true "host"
                           (Some "guest") (WPlayer PNull)]> prev) st
    | Some game, _ =>
        updateSimulatedGame gameId
          (SimulatedGame.mk (SimulatedGame.id game) (SimulatedGame.squares game)
             (SimulatedGame.isXNext game) (SimulatedGame.playerX game)
             (Some (if isSimulated then "simulated" else "guest"))
             (SimulatedGame.winner game))
          st
    | None, true =>
        setSimulatedGames
          (fun prev =>
             <[gameId := SimulatedGame.mk gameId emptyBoard true "host"
                           (Some (if isSimulated then "simulated" else "guest"))
                           (WPlayer PNull)]> prev) st
    end in
  let st2 := setOpponentConnected true st1 in
  let eff :=
    if negb isSimulated then
      [Toast "Joined game" "You've joined the game as player O."]
    else [Toast "Opponent connected!" "The game can now begin."] in
  (setShowLobby false st2, eff).

Definition joinSimulatedGame (gameId : string) (isSimulated : bool)
    (st : State) : State * list Effect :=
  joinSimulatedGame_from st gameId isSimulated st.

(** [joinRoom]; [joinRoomCode] is the text of the room-code input.  (The
    first toast is shown in the destructive style.) *)
Definition joinRoom (joinRoomCode : string) (st : State)
  : State * list Effect :=
  if String.eqb joinRoomCode "" then
    (st, [Toast "Enter a room code" "Please enter a valid room code to join."])
  else
    let formattedCode := toUpperCase joinRoomCode in
    let st1 := setRoomCode formattedCode st in
    let st2 := setIsHost false st1 in
    let st3 := setPlayerSymbol PO st2 in
    if useSimulatedMode st then joinSimulatedGame_from st formattedCode false st3
    else (st3, []).

(** ** Simulated opponent *)

(** The timer callback of the "Simulated online opponent" effect.  Every
    state cell it reads is a dependency of the effect, so it always runs on
    the state of the latest render. *)
Definition simulatedOpponentMove (random : nat → nat) (st : State)
  : State * list Effect :=
  match simulatedGames st !! roomCode st with
  | None => (st, [])
  | Some game =>
      if truthyW (SimulatedGame.winner game) then (st, [])
      else
        let availableMoves := availableSquares (SimulatedGame.squares game) in
        if 0 <? length availableMoves then
          match availableMoves !! random (length availableMoves) with
          | Some moveIndex =>
              let mark := if SimulatedGame.isXNext game then PX else PO in
              let newSquares :=
                asetZ (SimulatedGame.squares game) moveIndex mark in
              let st1 :=
                updateSimulatedGame (roomCode st)
                  (SimulatedGame.mk (SimulatedGame.id game) newSquares
                     (negb (SimulatedGame.isXNext game))
                     (SimulatedGame.playerX game) (SimulatedGame.playerO game)
                     (SimulatedGame.winner game))
                  st in
              let st2 := setSquares newSquares st1 in
              let st3 := setIsXNext (negb (SimulatedGame.isXNext game)) st2 in
              let st4 := setIsMyTurn true st3 in
              let newHistory :=
                take (currentMove st + 1) (history st)
                ++ [GameHistory.mk newSquares mark] in
              let st5 := setHistory newHistory st4 in
              (setCurrentMove (length newHistory - 1) st5, [])
          | None => (st, [])  (* not taken: the pick is inside the array *)
          end
        else (st, [])
  end.

(** The condition under which that effect arms its timer. *)
Definition simulatedOpponentArmed (st : State) : bool :=
  bool_decide (gameMode st = Online) && useSimulatedMode st
  && negb (String.eqb (roomCode st) "")
  && bool_decide (is_Some (simulatedGames st !! roomCode st))
  && negb (isMyTurn st) && negb (truthyW (winner st))
  && opponentConnected st.

(** The whole effect: the opponent's move once the timer fires. *)
Definition simulatedOpponentEffect (random : nat → nat) (st : State)
  : State * list Effect :=
  if simulatedOpponentArmed st then simulatedOpponentMove random st
  else (st, []).

(** ** Board synchronisation with the room *)

(** How [JSON.stringify] writes one square: [undefined] becomes [null]. *)
Definition jsonCell (p : Player) : Player :=
  match p with
  | PUndefined => PNull
  | _ => p
  end.

(** [JSON.stringify(a) !== JSON.stringify(b)] on two arrays of squares. *)
Definition jsonDiffers (a b : list Player) : bool :=
  negb (bool_decide (jsonCell <$> a = jsonCell <$> b)).

(** The "Simulated game state sync" effect. *)
Definition syncSimulatedGame (st : State) : State * list Effect :=
  if bool_decide (gameMode st = Online) && useSimulatedMode st
     && negb (String.eqb (roomCode st) "") then
    match simulatedGames st !! roomCode st with
    | Some game =>
        let st1 :=
          if (bool_decide (playerSymbol st = PX)
              && negb (SimulatedGame.isXNext game))
             || (bool_decide (playerSymbol st = PO)
                 && SimulatedGame.isXNext game)
          then setIsMyTurn false st
          else setIsMyTurn true st in
        let st2 :=
          if jsonDiffers (squares st) (SimulatedGame.squares game) then
            setSquares (SimulatedGame.squares game) st1
          else st1 in
        let st3 :=
          if truthyW (SimulatedGame.winner game)
             && negb (bool_decide (SimulatedGame.winner game = winner st))
          then setWinner (SimulatedGame.winner game) st2
          else st2 in
        (st3, [])
    | None => (st, [])
    end
  else (st, []).

(** ** Rendering *)

(** [line.includes(i)] *)
Definition lineIncludes (l : nat * nat * nat) (i : nat) : bool :=
  let '(a, b, c) := l in (a =? i) || (b =? i) || (c =? i).

(** [line.every(f)] *)
Definition lineEvery (f : nat → bool) (l : nat * nat * nat) : bool :=
  let '(a, b, c) := l in f a && f b && f c.

(** Whether the button of square [i] gets the pulsing ring (the same
    expression in all three tabs). *)
Definition highlighted (i : nat) (st : State) : bool :=
  let square := aget (squares st) i in
  truthyW (winner st)
  && negb (bool_decide (winner st = WDraw))
  && bool_decide (calculateWinner (squares st) = WPlayer square)
  && existsb
       (fun j =>
          existsb
            (fun line =>
               lineIncludes line i && lineIncludes line j
               && bool_decide (aget (squares st) i = aget (squares st) j)
               && lineEvery
                    (fun idx =>
                       bool_decide (aget (squares st) idx = aget (squares st) i))
                    line)
            lines)
       [0; 1; 2; 3; 4; 5; 6; 7; 8].

(** The [disabled] attribute of the button of square [i].  The tab on
    display is the one of [gameMode]: the tabs start on "computer" and every
    change of tab goes through [setMode]. *)
Definition buttonDisabled (i : nat) (st : State) : bool :=
  let square := aget (squares st) i in
  match gameMode st with
  | Computer =>
      truthyW (winner st) || truthy square
      || (negb (isXNext st) && bool_decide (gameMode st = Computer))
  | Local => truthyW (winner st) || truthy square
  | Online =>
      truthyW (winner st) || truthy square || negb (isMyTurn st)
      || negb (opponentConnected st)
  end.

(** [getStatus] *)
Definition getStatus (st : State) : string :=
  if bool_decide (winner st = WDraw) then "It's a draw!"
  else if truthyW (winner st) then
    match winner st with
    | WPlayer p => "Winner: " +:+ playerName p
    | WDraw => "Winner: draw"
    end
  else if bool_decide (gameMode st = Online) then
    if isMyTurn st then "Your turn" else "Opponent's turn"
  else "Next player: " +:+ (if isXNext st then "X" else "O").

(** ** More vocabulary *)

(** Events that go through [handleSquareClick]: a click on a square or the
    computer's timer. *)
Definition isMoveEvent (ev : Event) : Prop :=
  match ev with
  | EvClick _ | EvComputerTimer _ => True
  | _ => False
  end.

(** The fields of a session that make up the game proper. *)
Definition sameGame (st st' : State) : Prop :=
  squares st' = squares st ∧ history st' = history st
  ∧ currentMove st' = currentMove st ∧ isXNext st' = isXNext st
  ∧ gameMode st' = gameMode st.

(** The current move points at the snapshot of the live board; before the
    first move there is no snapshot and the board is empty. *)
Definition pointerInv (st : State) : Prop :=
  (history st = [] ∧ currentMove st = 0 ∧ squares st = emptyBoard)
  ∨ (∃ e, history st !! currentMove st = Some e
          ∧ GameHistory.squares e = squares st).

(** Against the computer only X's moves are ever recorded. *)
Definition computerHistoryInv (st : State) : Prop :=
  gameMode st = Computer →
  Forall (λ e, GameHistory.currentPlayer e = PX) (history st).

(** Text made of ASCII characters only, on which [toUpperCase] is the
    JavaScript method. *)
Fixpoint asciiText (s : string) : Prop :=
  match s with
  | EmptyString => True
  | String c rest => nat_of_ascii c < 128 ∧ asciiText rest
  end.

(** How many squares hold a mark. *)
Definition countTruthy (squares : list Player) : nat :=
  length (filter (λ c, truthy c = true) squares).

(** What a player on one device can do outside the online tab: click a
    square, click a history entry, reset, or switch between the two local
    tabs. *)
Definition deviceEvent (ev : Event) : Prop :=
  match ev with
  | EvClick i => (0 ≤ i)%Z
  | EvJump _ | EvReset => True
  | EvSetMode mode => mode ≠ Online
  | EvComputerTimer _ => False
  end.

(** The history entry at index [k] is a board with [k + 1] marks, and the
    current move points at the live board. *)
Definition marksInv (st : State) : Prop :=
  gameMode st ≠ Online
  ∧ (∀ k e, history st !! k = Some e →
            countTruthy (GameHistory.squares e) = k + 1)
  ∧ pointerInv st.

(** How many squares hold the value [p]. *)
Definition countMark (p : Player) (squares : list Player) : nat :=
  length (filter (λ c, c = p) squares).

(** A local two-player game right after the "Local 2P" tab was chosen. *)
Definition localStart : State := step (EvSetMode Local) initialState.

(** An online session played through the in-memory room [game]. *)
Definition inRoom (st : State) (game : SimulatedGame.t) : Prop :=
  gameMode st = Online ∧ useSimulatedMode st = true ∧ roomCode st ≠ ""
  ∧ simulatedGames st !! roomCode st = Some game.

(** ** The lines of the grid, as the rules name them *)

(** The square in row [r] and column [c] of the 3x3 grid, rows first. *)
Definition cellAt (r c : nat) : nat := 3 * r + c.

Definition rowLine (r : nat) : nat * nat * nat :=
  (cellAt r 0, cellAt r 1, cellAt r 2).

Definition columnLine (c : nat) : nat * nat * nat :=
  (cellAt 0 c, cellAt 1 c, cellAt 2 c).

Definition mainDiagonal : nat * nat * nat :=
  (cellAt 0 0, cellAt 1 1, cellAt 2 2).

Definition antiDiagonal : nat * nat * nat :=
  (cellAt 0 2, cellAt 1 1, cellAt 2 0).

(** The eight lines in their order of priority: the three rows, then the
    three columns, then the two diagonals. *)
Definition priorityLines : list (nat * nat * nat) :=
  [ rowLine 0; rowLine 1; rowLine 2;
    columnLine 0; columnLine 1; columnLine 2;
    mainDiagonal; antiDiagonal ].

(** Line number [k] of [table] is the first one that wins, for [p]. *)
Definition firstWinIn (table : list (nat * nat * nat))
    (squares : list Player) (k : nat) (p : Player) : Prop :=
  ∃ l, table !! k = Some l ∧ wins squares l p
       ∧ ∀ j l' q, j < k → table !! j = Some l' → ¬ wins squares l' q.

Definition noWinIn (table : list (nat * nat * nat))
    (squares : list Player) : Prop :=
  ∀ l p, l ∈ table → ¬ wins squares l p.

Definition hasLineIn (table : list (nat * nat * nat))
    (squares : list Player) (p : Player) : Prop :=
  ∃ l, l ∈ table ∧ wins squares l p.

(** The render right after X's winning click in a local game, before the
    winner effect has run: the board is won, the stored winner still null. *)
Definition localWinningClick : State :=
  fst (handleSquareClick 8
         (run [EvSetMode Local; EvClick 0; EvClick 1; EvClick 4; EvClick 2]
            initialState)).

(** * Properties *)

(** ** Array reads after writes *)

Lemma aget_aset_eq (squares : list Player) i v : aget (aset squares i v) i = v.
Proof.
  unfold aget, aset. case_decide as Hi.
  - by rewrite list_lookup_insert_eq.
  - rewrite lookup_app_r by lia.
    rewrite lookup_app_r by (rewrite length_replicate; lia).
    rewrite length_replicate.
    by replace (i - length squares - (i - length squares)) with 0 by lia.
Qed.

Lemma aget_aset_ne (squares : list Player) i j v :
  i ≠ j → aget (aset squares i v) j = aget squares j.
Proof.
  intros Hne. unfold aget, aset. case_decide as Hi.
  - by rewrite list_lookup_insert_ne.
  - destruct (decide (j < length squares)) as [Hj|Hj].
    + by rewrite lookup_app_l.
    + rewrite lookup_app_r by lia.
      rewrite (lookup_ge_None_2 squares j) by lia.
      destruct (decide (j - length squares < i - length squares)) as [Hlt|Hge].
      * rewrite lookup_app_l by (rewrite length_replicate; lia).
        by rewrite lookup_replicate_2.
      * rewrite lookup_app_r by (rewrite length_replicate; lia).
        rewrite length_replicate. rewrite lookup_ge_None_2; [done|].
        simpl. lia.
Qed.

(** ** The evaluator *)

Lemma lineTest_wins squares l :
  lineTest squares l = true ↔ wins squares l (aget squares l.1.1).
Proof.
  destruct l as [[a b] c]. unfold lineTest, wins. simpl.
  rewrite !andb_true_iff, !bool_decide_eq_true. intuition congruence.
Qed.

Lemma lineTest_false squares l p : lineTest squares l = false → ¬ wins squares l p.
Proof.
  intros Hf (Ht & Ha & Hb & Hc).
  assert (lineTest squares l = true) as Hyes; [|congruence].
  apply lineTest_wins. unfold wins. by rewrite Ha.
Qed.

Lemma wins_lineTest squares l p : wins squares l p → lineTest squares l = true.
Proof.
  intros Hw. destruct (lineTest squares l) eqn:E; [done|].
  by destruct (lineTest_false _ _ p E).
Qed.

(** What the scan of a table of lines returns. *)
Lemma scanLines_Some squares ls p :
  scanLines squares ls = Some p ↔
  ∃ k l, ls !! k = Some l ∧ wins squares l p
         ∧ ∀ j l' q, j < k → ls !! j = Some l' → ¬ wins squares l' q.
Proof.
  induction ls as [|l0 ls IH]; simpl.
  - split; [done|]. by intros (k & l & Hk & _).
  - destruct (lineTest squares l0) eqn:E.
    + split.
      * intros [= <-]. exists 0, l0. split; [done|]. split.
        -- by apply lineTest_wins.
        -- intros; lia.
      * intros (k & l & Hk & Hw & Hfirst). destruct k as [|k].
        -- simpl in Hk. injection Hk as <-.
           apply lineTest_wins in E. destruct E as (_ & E & _).
           destruct Hw as (_ & Hw & _). congruence.
        -- destruct (Hfirst 0 l0 (aget squares l0.1.1)); [lia|done|].
           by apply lineTest_wins.
    + rewrite IH. split.
      * intros (k & l & Hk & Hw & Hfirst). exists (S k), l.
        split; [done|]. split; [done|].
        intros j l' q Hj Hl'. destruct j as [|j].
        -- simpl in Hl'. injection Hl' as <-. by apply lineTest_false.
        -- apply (Hfirst j); [lia|done].
      * intros (k & l & Hk & Hw & Hfirst). destruct k as [|k].
        -- simpl in Hk. injection Hk as <-.
           apply wins_lineTest in Hw. congruence.
        -- exists k, l. split; [done|]. split; [done|].
           intros j l' q Hj Hl'. apply (Hfirst (S j)); [lia|done].
Qed.

Lemma scanLines_None squares ls :
  scanLines squares ls = None ↔ ∀ l p, l ∈ ls → ¬ wins squares l p.
Proof.
  induction ls as [|l0 ls IH]; simpl.
  - split; [|done]. intros _ l p Hl. by apply elem_of_nil in Hl.
  - destruct (lineTest squares l0) eqn:E.
    + split; [done|]. intros Hno. exfalso.
      apply (Hno l0 (aget squares l0.1.1)); [left|by apply lineTest_wins].
    + rewrite IH. split.
      * intros Hno l p [->|Hl]%elem_of_cons; [by apply lineTest_false|by apply Hno].
      * intros Hno l p Hl. apply Hno. by right.
Qed.

Lemma noWin_scanLines squares : noWin squares ↔ scanLines squares lines = None.
Proof. symmetry. apply scanLines_None. Qed.

Lemma firstWin_scanLines squares p :
  (∃ k, firstWin squares k p) ↔ scanLines squares lines = Some p.
Proof. rewrite scanLines_Some. unfold firstWin. naive_solver. Qed.

Lemma everyNotNull_true squares :
  everyNotNull squares = true ↔ ∀ x, x ∈ squares → x ≠ PNull.
Proof.
  unfold everyNotNull. rewrite forallb_forall. split.
  - intros H x Hx. apply list_elem_of_In in Hx. apply H in Hx.
    apply negb_true_iff, bool_decide_eq_false in Hx. done.
  - intros H x Hx. apply list_elem_of_In in Hx.
    apply negb_true_iff, bool_decide_eq_false. by apply H.
Qed.

(** A winner reported by the scan is a mark, never an empty cell. *)
Lemma scanLines_truthy squares ls p :
  scanLines squares ls = Some p → truthy p = true.
Proof. intros (k & l & _ & (Ht & _) & _)%scanLines_Some. done. Qed.

(** While the stored outcome is "in progress", no line is complete. *)
Lemma calculateWinner_falsy_noWin squares :
  truthyW (calculateWinner squares) = false → noWin squares.
Proof.
  unfold calculateWinner. intros Hf. apply noWin_scanLines.
  destruct (scanLines squares lines) as [p|] eqn:E; [|done].
  apply scanLines_truthy in E. simpl in Hf. congruence.
Qed.

(** ** Placing a mark on a board without a complete line *)

Lemma wins_aset_through squares n m l p :
  noWin squares → l ∈ lines → wins (aset squares n m) l p → p = m.
Proof.
  intros Hno Hl (Ht & Ha & Hb & Hc). destruct l as [[a b] c]. simpl in *.
  destruct (decide (n = a)) as [->|Hna].
  { by rewrite aget_aset_eq in Ha. }
  destruct (decide (n = b)) as [->|Hnb].
  { by rewrite aget_aset_eq in Hb. }
  destruct (decide (n = c)) as [->|Hnc].
  { by rewrite aget_aset_eq in Hc. }
  rewrite aget_aset_ne in Ha, Hb, Hc by done.
  destruct (Hno (a, b, c) p Hl). by repeat split.
Qed.

Lemma noWin_exclusive squares : noWin squares → exclusive squares.
Proof. intros Hno [(l & Hl & Hw) _]. by apply (Hno l PX). Qed.

Lemma exclusive_aset squares n m : noWin squares → exclusive (aset squares n m).
Proof.
  intros Hno [(l1 & Hl1 & Hw1) (l2 & Hl2 & Hw2)].
  apply wins_aset_through in Hw1; [|done..].
  apply wins_aset_through in Hw2; [|done..]. congruence.
Qed.

Lemma exclusive_asetZ squares i m :
  noWin squares → exclusive (asetZ squares i m).
Proof.
  intros Hno. unfold asetZ. destruct (i <? 0)%Z.
  - by apply noWin_exclusive.
  - by apply exclusive_aset.
Qed.

Lemma exclusive_emptyBoard : exclusive emptyBoard.
Proof. apply noWin_exclusive, noWin_scanLines. reflexivity. Qed.

(** ** Session invariant *)

Lemma calculateWinnerEffect_squares st :
  squares (fst (calculateWinnerEffect st)) = squares st
  ∧ history (fst (calculateWinnerEffect st)) = history st
  ∧ winner (fst (calculateWinnerEffect st)) = calculateWinner (squares st).
Proof.
  unfold calculateWinnerEffect.
  destruct (truthyW (calculateWinner (squares st))); [|done].
  destruct (calculateWinner (squares st)); simpl;
    destruct (_ && _); simpl; try done;
    destruct (simulatedGames st !! roomCode st); done.
Qed.

Lemma handleSquareClick_boardsInv i st :
  sessionInv st → boardsInv (fst (handleSquareClick i st)).
Proof.
  intros (Hw & Hex & Hhist). unfold handleSquareClick.
  destruct (truthyW (winner st)) eqn:Hover; simpl; [by split|].
  destruct (truthy (agetZ (squares st) i)); simpl; [by split|].
  repeat (match goal with
          | |- context [if ?b then (st, _) else _] => destruct b; simpl; [by split|]
          end).
  assert (exclusive (asetZ (squares st) i (moverMark st))) as Hnew.
  { apply exclusive_asetZ, calculateWinner_falsy_noWin. by rewrite <- Hw. }
  assert (Forall (λ e, exclusive (GameHistory.squares e))
            (take (currentMove st + 1) (history st)
             ++ [GameHistory.mk (asetZ (squares st) i (moverMark st))
                   (if isXNext st then PX else PO)])) as Hh.
  { apply Forall_app. split; [by apply Forall_take|]. by apply Forall_singleton. }
  destruct (bool_decide (gameMode st = Online)); simpl; [|by split].
  destruct (_ && _); simpl; [|by split].
  destruct (simulatedGames st !! roomCode st); by split.
Qed.

Lemma jumpToMove_boardsInv move st :
  boardsInv st → boardsInv (fst (jumpToMove move st)).
Proof.
  intros (Hex & Hhist). unfold jumpToMove.
  destruct (_ || _); simpl; [by split|].
  destruct (bool_decide _); simpl; [by split|].
  destruct (history st !! Z.to_nat move) as [entry|] eqn:E; simpl; [|by split].
  split; [|done]. by apply (Forall_lookup_1 _ _ _ _ Hhist E).
Qed.

(** Opens [resetGame_from] and splits on the online/room branches it takes. *)
Ltac reset_cases env :=
  unfold resetGame, resetGame_from; simpl;
  destruct (bool_decide (gameMode env = Online)); simpl; [|];
  [ destruct (useSimulatedMode env && negb (String.eqb (roomCode env) ""));
    simpl; [destruct (simulatedGames env !! roomCode env); simpl|] |].

Lemma resetGame_from_fields env notify st :
  squares (fst (resetGame_from env notify st)) = emptyBoard
  ∧ history (fst (resetGame_from env notify st)) = []
  ∧ currentMove (fst (resetGame_from env notify st)) = 0
  ∧ winner (fst (resetGame_from env notify st)) = WPlayer PNull
  ∧ isXNext (fst (resetGame_from env notify st)) = true.
Proof.
  split; [reset_cases env; reflexivity|].
  split; [reset_cases env; reflexivity|].
  split; [reset_cases env; reflexivity|].
  split; reset_cases env; reflexivity.
Qed.

Lemma resetGame_from_boardsInv env notify st :
  boardsInv (fst (resetGame_from env notify st)).
Proof.
  destruct (resetGame_from_fields env notify st) as (Hsq & Hh & _).
  unfold boardsInv. rewrite Hsq, Hh.
  split; [apply exclusive_emptyBoard|constructor].
Qed.

Lemma setMode_boardsInv mode st : boardsInv st → boardsInv (fst (setMode mode st)).
Proof.
  intros Hinv. unfold setMode. destruct (bool_decide (mode = gameMode st)); [done|].
  pose proof (resetGame_from_boardsInv st false (setGameMode mode st)) as Hr.
  destruct (resetGame_from st false (setGameMode mode st)) as [st2 eff].
  simpl in *. by destruct (bool_decide (mode = Online)).
Qed.

Lemma sessionInv_boardsInv st : sessionInv st → boardsInv st.
Proof. by intros (_ & ? & ?). Qed.

Lemma handle_boardsInv ev st : sessionInv st → boardsInv (fst (handle ev st)).
Proof.
  intros Hinv. destruct ev as [i|move| |mode|random]; simpl.
  - by apply handleSquareClick_boardsInv.
  - by apply jumpToMove_boardsInv, sessionInv_boardsInv.
  - apply (resetGame_from_boardsInv st true st).
  - by apply setMode_boardsInv, sessionInv_boardsInv.
  - unfold makeComputerMove. destruct (chooseMove random (squares st)).
    + by apply handleSquareClick_boardsInv.
    + by apply sessionInv_boardsInv.
Qed.

Lemma step_sessionInv ev st : sessionInv st → sessionInv (step ev st).
Proof.
  intros Hinv. apply (handle_boardsInv ev) in Hinv as (Hex & Hhist).
  unfold step, sessionInv.
  destruct (calculateWinnerEffect_squares (fst (handle ev st))) as (-> & -> & ->).
  done.
Qed.

Lemma initialState_sessionInv : sessionInv initialState.
Proof.
  split; [reflexivity|]. split; [apply exclusive_emptyBoard|constructor].
Qed.

Lemma reachable_sessionInv st : reachable st → sessionInv st.
Proof.
  induction 1 as [|st ev _ IH]; [apply initialState_sessionInv|].
  by apply step_sessionInv.
Qed.

Lemma reachable_run evs st : reachable st → reachable (run evs st).
Proof.
  revert st. induction evs as [|ev evs IH]; intros st Hst; [done|].
  simpl. apply IH. by constructor.
Qed.

Lemma legalPlay_exclusive board xNext : legalPlay board xNext → exclusive board.
Proof.
  induction 1 as [|board xNext i _ _ Hprogress _ _].
  - apply exclusive_emptyBoard.
  - apply exclusive_aset, calculateWinner_falsy_noWin. by rewrite Hprogress.
Qed.

(** Boards of legal play keep their nine cells. *)
Lemma legalPlay_length board xNext : legalPlay board xNext → length board = 9.
Proof.
  induction 1 as [|board xNext i _ IH _ Hi _]; [reflexivity|].
  unfold aset. rewrite decide_True by lia. by rewrite length_insert.
Qed.

(** Cells of such boards are marks or [null], never [undefined]. *)
Lemma legalPlay_defined board xNext :
  legalPlay board xNext → Forall (λ c, c ≠ PUndefined) board.
Proof.
  induction 1 as [|board xNext i Hplay IH _ Hi _].
  - by repeat constructor.
  - unfold aset. apply legalPlay_length in Hplay.
    rewrite decide_True by lia.
    apply Forall_insert; [done|]. by destruct xNext.
Qed.

Lemma calculateWinner_falsy squares :
  truthyW (calculateWinner squares) = false →
  calculateWinner squares = WPlayer PNull.
Proof.
  unfold calculateWinner.
  destruct (scanLines squares lines) as [p|] eqn:E.
  - apply scanLines_truthy in E. simpl. congruence.
  - by destruct (everyNotNull squares).
Qed.

Lemma calculateWinnerEffect_isXNext st :
  isXNext (fst (calculateWinnerEffect st)) = isXNext st.
Proof.
  unfold calculateWinnerEffect.
  destruct (truthyW (calculateWinner (squares st))); [|done].
  destruct (calculateWinner (squares st)); simpl;
    destruct (_ && _); simpl; try done;
    destruct (simulatedGames st !! roomCode st); done.
Qed.

(** The local two-player mode plays by that relation: a click on one of the
    nine squares either is turned down or makes a legal move. *)
Lemma local_click_legalPlay (i : nat) (st : State) :
  gameMode st = Local → winner st = calculateWinner (squares st) → i < 9 →
  legalPlay (squares st) (isXNext st) →
  legalPlay (squares (step (EvClick (Z.of_nat i)) st))
            (isXNext (step (EvClick (Z.of_nat i)) st)).
Proof.
  intros Hmode Hwinner Hi Hplay. unfold step. simpl.
  destruct (calculateWinnerEffect_squares (fst (handleSquareClick (Z.of_nat i) st)))
    as (-> & _ & _).
  rewrite calculateWinnerEffect_isXNext.
  unfold handleSquareClick. rewrite Hmode. simpl.
  destruct (truthyW (winner st)) eqn:Hover; simpl; [done|].
  destruct (truthy (agetZ (squares st) (Z.of_nat i))) eqn:Hocc; simpl; [done|].
  unfold moverMark. rewrite Hmode. simpl.
  unfold agetZ, asetZ in *.
  rewrite (proj2 (Z.ltb_ge _ _)) in * by lia. rewrite Nat2Z.id in *.
  apply legalPlay_move; [done| |done|].
  - apply calculateWinner_falsy. by rewrite <- Hwinner.
  - pose proof (legalPlay_length _ _ Hplay) as Hlen.
    pose proof (legalPlay_defined _ _ Hplay) as Hdef.
    unfold aget in *.
    destruct (lookup_lt_is_Some_2 (squares st) i) as [c Hc]; [lia|].
    rewrite Hc in *. simpl in *.
    pose proof (Forall_lookup_1 _ _ _ _ Hdef Hc) as Hc'. simpl in Hc'.
    by destruct c.
Qed.

(** ** Claims about the evaluator *)

(** The evaluator's own table is the eight lines in that order. *)
Lemma lines_priorityLines : lines = priorityLines.
Proof. reflexivity. Qed.

(** The outcome in terms of the evaluator's table. *)
Lemma calculateWinner_cases (squares : list Player) :
  (∀ k p, firstWin squares k p →
          calculateWinner squares = WPlayer p ∧ (p = PX ∨ p = PO))
  ∧ (noWin squares → (∀ x, x ∈ squares → x ≠ PNull) →
     calculateWinner squares = WDraw)
  ∧ (noWin squares → ¬ (∀ x, x ∈ squares → x ≠ PNull) →
     calculateWinner squares = WPlayer PNull)
  ∧ ((∃ k p, firstWin squares k p) ∨ noWin squares).
Proof.
  split; [|split; [|split]].
  - intros k p Hfirst. split.
    + assert (∃ k', firstWin squares k' p) as Hex by eauto.
      apply firstWin_scanLines in Hex. unfold calculateWinner. by rewrite Hex.
    + destruct Hfirst as (l & _ & (Ht & _) & _).
      destruct p; simpl in Ht; auto; done.
  - intros Hno Hfull. unfold calculateWinner.
    apply noWin_scanLines in Hno. rewrite Hno.
    apply everyNotNull_true in Hfull. by rewrite Hfull.
  - intros Hno Hnotfull. unfold calculateWinner.
    apply noWin_scanLines in Hno. rewrite Hno.
    destruct (everyNotNull squares) eqn:E; [|done].
    destruct Hnotfull. by apply everyNotNull_true.
  - destruct (scanLines squares lines) as [p|] eqn:E.
    + left. apply firstWin_scanLines in E as [k Hk]. eauto.
    + right. by apply noWin_scanLines.
Qed.

(** C1.  For every board (in particular every 9-cell board)
    [calculateWinner] returns exactly one outcome, decided by the eight
    lines of the grid taken in the order rows 0-2, columns 0-2, main
    diagonal, anti-diagonal: the mark [p] of the first of these lines whose
    three cells are non-empty and equal; "draw" when none of them wins and no
    cell is [null]; and [null] otherwise.  One of these cases always
    applies.  On every board reached by legal alternating play, and on the
    board of every session reachable through the handlers, X and O never
    both own one of the eight lines. *)
Theorem calculateWinner_outcome :
  (∀ squares : list Player,
     (∀ k p, firstWinIn priorityLines squares k p →
             calculateWinner squares = WPlayer p ∧ (p = PX ∨ p = PO))
     ∧ (noWinIn priorityLines squares → (∀ x, x ∈ squares → x ≠ PNull) →
        calculateWinner squares = WDraw)
     ∧ (noWinIn priorityLines squares →
        ¬ (∀ x, x ∈ squares → x ≠ PNull) →
        calculateWinner squares = WPlayer PNull)
     ∧ ((∃ k p, firstWinIn priorityLines squares k p)
        ∨ noWinIn priorityLines squares))
  ∧ (∀ board xNext, legalPlay board xNext →
                    ¬ (hasLineIn priorityLines board PX
                       ∧ hasLineIn priorityLines board PO))
  ∧ (∀ st, reachable st →
           ¬ (hasLineIn priorityLines (squares st) PX
              ∧ hasLineIn priorityLines (squares st) PO)).
Proof.
  rewrite <- lines_priorityLines. split; [exact calculateWinner_cases|]. split.
  - intros board xNext Hplay. exact (legalPlay_exclusive board xNext Hplay).
  - intros st Hst. destruct (reachable_sessionInv st Hst) as (_ & Hex & _).
    exact Hex.
Qed.

Lemma calculateWinner_outcome_witness :
  calculateWinner [PX; PO; PO; PNull; PX; PNull; PNull; PNull; PX] = WPlayer PX
  ∧ calculateWinner [PX; PO; PX; PX; PO; PO; PO; PX; PX] = WDraw
  ∧ calculateWinner emptyBoard = WPlayer PNull
  ∧ ¬ (hasLineIn priorityLines (aset emptyBoard 4 PX) PX
       ∧ hasLineIn priorityLines (aset emptyBoard 4 PX) PO)
  ∧ ¬ (hasLineIn priorityLines
         (squares (run [EvSetMode Local; EvClick 0; EvClick 1; EvClick 4;
                        EvClick 2; EvClick 8] initialState)) PX
       ∧ hasLineIn priorityLines
           (squares (run [EvSetMode Local; EvClick 0; EvClick 1; EvClick 4;
                          EvClick 2; EvClick 8] initialState)) PO).
Proof.
  destruct calculateWinner_outcome as (Hboard & Hlegal & Hreach).
  split; [|split; [|split; [|split]]].
  - destruct (Hboard [PX; PO; PO; PNull; PX; PNull; PNull; PNull; PX])
      as (Hwin & _).
    apply (Hwin 6 PX). exists (0, 4, 8).
    split; [reflexivity|]. split; [by repeat split|].
    intros j l' q Hj Hl'. apply lineTest_false.
    do 6 (destruct j as [|j]; [injection Hl' as <-; reflexivity|]). lia.
  - destruct (Hboard [PX; PO; PX; PX; PO; PO; PO; PX; PX]) as (_ & Hdraw & _).
    apply Hdraw.
    + apply (proj2 (noWin_scanLines
                      [PX; PO; PX; PX; PO; PO; PO; PX; PX])). reflexivity.
    + apply everyNotNull_true. reflexivity.
  - destruct (Hboard emptyBoard) as (_ & _ & Hnull & _).
    apply Hnull.
    + apply (proj2 (noWin_scanLines emptyBoard)). reflexivity.
    + intros Hfull. apply everyNotNull_true in Hfull. discriminate Hfull.
  - apply (Hlegal (aset emptyBoard 4 PX) (negb true)).
    apply (legalPlay_move emptyBoard true 4);
      [constructor|reflexivity|lia|reflexivity].
  - apply Hreach. apply reachable_run. constructor.
Defined.

Example run_diagonal_game :
  squares (run [EvSetMode Local; EvClick 0; EvClick 1; EvClick 4; EvClick 2;
                EvClick 8] initialState)
  = [PX; PO; PO; PNull; PX; PNull; PNull; PNull; PX].
Proof. reflexivity. Qed.

(** ** Claims about the candidate-move search *)

Lemma winsAt_test squares player i :
  bool_decide (aget squares i = PNull)
  && bool_decide (calculateWinner (aset squares i player) = WPlayer player) = true
  ↔ winsAt squares player i.
Proof. unfold winsAt. by rewrite andb_true_iff, !bool_decide_eq_true. Qed.

Lemma winsAt_test_false squares player i :
  bool_decide (aget squares i = PNull)
  && bool_decide (calculateWinner (aset squares i player) = WPlayer player) = false
  ↔ ¬ winsAt squares player i.
Proof. rewrite <- winsAt_test. by destruct (_ && _). Qed.

(** The loop returns [-1] or an index it visited. *)
Lemma findWinningMove_from_range squares player i n :
  findWinningMove_from squares player i n = (-1)%Z
  ∨ ∃ k, findWinningMove_from squares player i n = Z.of_nat k ∧ i ≤ k < i + n.
Proof.
  revert i. induction n as [|n IH]; intros i; simpl; [by left|].
  destruct (_ && _).
  - right. exists i. split; [done|lia].
  - destruct (IH (S i)) as [->|(k & -> & Hk)]; [by left|].
    right. exists k. split; [done|lia].
Qed.

Lemma findWinningMove_from_found squares player i n k :
  findWinningMove_from squares player i n = Z.of_nat k ↔
  i ≤ k < i + n ∧ winsAt squares player k
  ∧ ∀ j, i ≤ j < k → ¬ winsAt squares player j.
Proof.
  revert i. induction n as [|n IH]; intros i; simpl.
  - split; [lia|]. intros [? _]. lia.
  - destruct (_ && _) eqn:E.
    + apply winsAt_test in E. split.
      * intros ->%Nat2Z.inj. split; [lia|]. split; [done|]. intros; lia.
      * intros (Hk & Hw & Hfirst). f_equal.
        destruct (decide (i = k)) as [|Hne]; [done|].
        destruct (Hfirst i); [lia|done].
    + apply winsAt_test_false in E. rewrite IH. split.
      * intros (Hk & Hw & Hfirst). split; [lia|]. split; [done|].
        intros j Hj. destruct (decide (j = i)) as [->|Hne]; [done|].
        apply Hfirst. lia.
      * intros (Hk & Hw & Hfirst).
        assert (i ≠ k) by (intros ->; done).
        split; [lia|]. split; [done|]. intros j Hj. apply Hfirst. lia.
Qed.

Lemma findWinningMove_from_none squares player i n :
  findWinningMove_from squares player i n = (-1)%Z ↔
  ∀ j, i ≤ j < i + n → ¬ winsAt squares player j.
Proof.
  revert i. induction n as [|n IH]; intros i; simpl.
  - split; [intros; lia|done].
  - destruct (_ && _) eqn:E.
    + apply winsAt_test in E. split; [lia|].
      intros Hno. destruct (Hno i); [lia|done].
    + apply winsAt_test_false in E. rewrite IH. split.
      * intros Hno j Hj. destruct (decide (j = i)) as [->|Hne]; [done|].
        apply Hno. lia.
      * intros Hno j Hj. apply Hno. lia.
Qed.

(** C3.  [findWinningMove] visits the cells in ascending index order; for
    each empty one it places the player's mark on a copy and re-evaluates.
    It returns the first (lowest) index at which the evaluator then reports
    the player as winner, and [-1] exactly when no cell does. *)
Theorem findWinningMove_first squares player :
  (∀ i, findWinningMove squares player = Z.of_nat i ↔
        i < length squares ∧ winsAt squares player i
        ∧ ∀ j, j < i → ¬ winsAt squares player j)
  ∧ (findWinningMove squares player = (-1)%Z ↔
     ∀ i, i < length squares → ¬ winsAt squares player i)
  ∧ (findWinningMove squares player = (-1)%Z
     ∨ ∃ i, findWinningMove squares player = Z.of_nat i ∧ i < length squares).
Proof.
  unfold findWinningMove. split; [|split].
  - intros i. rewrite findWinningMove_from_found. split.
    + intros (Hi & Hw & Hfirst). split; [lia|]. split; [done|].
      intros j Hj. apply Hfirst. lia.
    + intros (Hi & Hw & Hfirst). split; [lia|]. split; [done|].
      intros j Hj. apply Hfirst. lia.
  - rewrite findWinningMove_from_none. split.
    + intros Hno i Hi. apply Hno. lia.
    + intros Hno i Hi. apply Hno. lia.
  - destruct (findWinningMove_from_range squares player 0 (length squares))
      as [->|(k & -> & Hk)]; [by left|].
    right. exists k. split; [done|lia].
Qed.

Lemma findWinningMove_first_witness :
  findWinningMove [PX; PX; PNull; PNull; PO; PNull; PNull; PNull; PNull] PX = 2%Z
  ∧ findWinningMove [PX; PX; PNull; PNull; PO; PNull; PNull; PNull; PNull] PO
    = (-1)%Z.
Proof.
  split.
  - apply (proj1 (findWinningMove_first
                    [PX; PX; PNull; PNull; PO; PNull; PNull; PNull; PNull] PX) 2).
    split; [simpl; lia|]. split; [by split|].
    intros j Hj [Hnull _].
    destruct j as [|[|j]]; [discriminate Hnull|discriminate Hnull|lia].
  - apply (proj1 (proj2 (findWinningMove_first
                    [PX; PX; PNull; PNull; PO; PNull; PNull; PNull; PNull] PO))).
    intros i Hi [Hnull Hwin]. simpl in Hi.
    do 9 (destruct i as [|i]; [try discriminate Hnull; discriminate Hwin|]).
    lia.
Defined.

(** ** Claims about the computer policy *)

Lemma calculateWinner_null_not_full squares :
  calculateWinner squares = WPlayer PNull → everyNotNull squares = false.
Proof.
  unfold calculateWinner.
  destruct (scanLines squares lines) as [p|] eqn:E.
  - intros [= ->]. apply scanLines_truthy in E. discriminate E.
  - by destruct (everyNotNull squares).
Qed.

Lemma everyNotNull_false squares :
  everyNotNull squares = false → ∃ i, i < length squares ∧ aget squares i = PNull.
Proof.
  induction squares as [|x squares IH]; simpl; [done|].
  destruct (decide (x = PNull)) as [->|Hx].
  - intros _. exists 0. split; [lia|done].
  - rewrite bool_decide_eq_false_2 by done. simpl.
    intros (i & Hi & Hnull)%IH. exists (S i). split; [lia|done].
Qed.

Lemma availableSquares_elem squares z :
  z ∈ availableSquares squares ↔
  ∃ i, z = Z.of_nat i ∧ i < length squares ∧ aget squares i = PNull.
Proof.
  unfold availableSquares. rewrite list_elem_of_filter, list_elem_of_lookup.
  setoid_rewrite list_lookup_imap. split.
  - intros (Hz & i & Hi).
    destruct (squares !! i) as [x|] eqn:E; simpl in Hi; [|done].
    injection Hi as <-. case_bool_decide as Hx; [|done]. subst x.
    exists i. split; [done|]. split; [by apply lookup_lt_Some in E|].
    unfold aget. by rewrite E.
  - intros (i & -> & Hi & Hnull). split; [lia|]. exists i.
    unfold aget in Hnull. destruct (squares !! i) as [x|] eqn:E; simpl in *.
    + subst x. by rewrite bool_decide_eq_true_2.
    + apply lookup_ge_None in E. lia.
Qed.

(** A pick at a random index below the length is an element of the list. *)
Lemma random_pick {A} (random : nat → nat) (l : list A) :
  (∀ n, 0 < n → random n < n) → l ≠ [] →
  ∃ x, l !! random (length l) = Some x ∧ x ∈ l.
Proof.
  intros Hrandom Hne.
  assert (0 < length l) as Hlen by (destruct l; simpl; [done|lia]).
  destruct (lookup_lt_is_Some_2 l (random (length l)) (Hrandom _ Hlen)) as [x Hx].
  exists x. split; [done|]. by apply list_elem_of_lookup_2 in Hx.
Qed.

Lemma length_pos_ltb {A} (l : list A) : l ≠ [] → (0 <? length l) = true.
Proof. intros Hne. destruct l; [done|]. reflexivity. Qed.

(** The ladder by which [makeComputerMove] picks its cell on a board on which
    the game is still in progress: O's lowest-index winning move when there
    is one; otherwise the lowest-index move that blocks X; otherwise the
    centre if it is empty; otherwise one of the empty corners 0, 2, 6, 8;
    otherwise one of the empty cells. *)
Lemma chooseMove_ladder (random : nat → nat) (squares : list Player) :
  calculateWinner squares = WPlayer PNull →
  (∀ n, 0 < n → random n < n) →
  let win := findWinningMove squares PO in
  let block := findWinningMove squares PX in
  let freeCorners := filter (λ i, aget squares i = PNull) [0; 2; 6; 8] in
  (win ≠ (-1)%Z → chooseMove random squares = Some win)
  ∧ (win = (-1)%Z → block ≠ (-1)%Z → chooseMove random squares = Some block)
  ∧ (win = (-1)%Z → block = (-1)%Z → aget squares 4 = PNull →
     chooseMove random squares = Some 4%Z)
  ∧ (win = (-1)%Z → block = (-1)%Z → aget squares 4 ≠ PNull →
     freeCorners ≠ [] →
     ∃ c, c ∈ freeCorners ∧ chooseMove random squares = Some (Z.of_nat c))
  ∧ (win = (-1)%Z → block = (-1)%Z → aget squares 4 ≠ PNull →
     freeCorners = [] →
     ∃ i, i < length squares ∧ aget squares i = PNull
          ∧ chooseMove random squares = Some (Z.of_nat i)).
Proof.
  intros Hprogress Hrandom win block freeCorners.
  pose proof (calculateWinner_null_not_full _ Hprogress) as Hnotfull.
  unfold chooseMove, corners. rewrite Hprogress, Hnotfull. simpl.
  fold win block freeCorners.
  split; [|split; [|split; [|split]]].
  - intros Hwin. by rewrite (proj2 (Z.eqb_neq _ _) Hwin).
  - intros -> Hblock. simpl. by rewrite (proj2 (Z.eqb_neq _ _) Hblock).
  - intros -> -> Hcentre. simpl. by rewrite bool_decide_eq_true_2.
  - intros -> -> Hcentre Hcorners. simpl.
    rewrite bool_decide_eq_false_2 by done.
    rewrite (length_pos_ltb _ Hcorners).
    destruct (random_pick random freeCorners Hrandom Hcorners) as (c & -> & Hc).
    by exists c.
  - intros -> -> Hcentre Hcorners. simpl.
    rewrite bool_decide_eq_false_2 by done. rewrite Hcorners. simpl.
    destruct (everyNotNull_false _ Hnotfull) as (i0 & Hi0 & Hnull0).
    assert (availableSquares squares ≠ []) as Hne.
    { intros Hnil.
      assert (Z.of_nat i0 ∈ availableSquares squares) as Hin
        by (apply availableSquares_elem; eauto).
      rewrite Hnil in Hin. by apply elem_of_nil in Hin. }
    rewrite (length_pos_ltb _ Hne).
    destruct (random_pick random _ Hrandom Hne) as (z & -> & Hz).
    apply availableSquares_elem in Hz as (i & -> & Hi & Hnull). by exists i.
Qed.

Example chooseMove_blocks :
  chooseMove (λ _, 0) [PX; PX; PNull; PNull; PO; PNull; PNull; PNull; PNull]
  = Some 2%Z.
Proof.
  apply (chooseMove_ladder (λ _, 0)
           [PX; PX; PNull; PNull; PO; PNull; PNull; PNull; PNull]).
  - reflexivity.
  - intros n Hn. exact Hn.
  - reflexivity.
  - discriminate.
Defined.



(** ** Claims about [handleSquareClick] *)

(** C4.  A click is turned down without any state change (so the board, the
    history, the current move, the turn and the stored outcome all stay as
    they were) when the game is over, when the cell is occupied, or when, in
    the online or computer mode, it is not the clicking side's turn. *)
Theorem handleSquareClick_rejected (i : Z) (st : State) :
  rejected i st →
  fst (handleSquareClick i st) = st
  ∧ squares (fst (handleSquareClick i st)) = squares st
  ∧ history (fst (handleSquareClick i st)) = history st
  ∧ currentMove (fst (handleSquareClick i st)) = currentMove st
  ∧ isXNext (fst (handleSquareClick i st)) = isXNext st
  ∧ isMyTurn (fst (handleSquareClick i st)) = isMyTurn st
  ∧ winner (fst (handleSquareClick i st)) = winner st.
Proof.
  intros Hrej.
  assert (fst (handleSquareClick i st) = st) as ->; [|done].
  unfold handleSquareClick.
  destruct Hrej as [Hover|[Hocc|[[Hmode Hturn]|[Hmode Hturn]]]].
  - by rewrite Hover.
  - rewrite Hocc, orb_true_r. done.
  - rewrite Hmode, Hturn. simpl. by destruct (_ || _).
  - rewrite Hmode, Hturn. simpl. by destruct (_ || _).
Qed.

Lemma handleSquareClick_rejected_witness :
  fst (handleSquareClick 1 localThreeMoves) = localThreeMoves
  ∧ fst (handleSquareClick 3 localWonByX) = localWonByX
  ∧ fst (handleSquareClick 5 computerToMove) = computerToMove.
Proof.
  split; [|split].
  - apply (handleSquareClick_rejected 1 localThreeMoves).
    right. left. vm_compute. reflexivity.
  - apply (handleSquareClick_rejected 3 localWonByX).
    left. vm_compute. reflexivity.
  - apply (handleSquareClick_rejected 5 computerToMove).
    right. right. right. split; vm_compute; reflexivity.
Defined.

(** What an accepted click stores. *)
Lemma handleSquareClick_accepted (i : Z) (st : State) :
  accepted i st →
  let newSquares := asetZ (squares st) i (moverMark st) in
  let newHistory :=
    take (currentMove st + 1) (history st)
    ++ [GameHistory.mk newSquares (if isXNext st then PX else PO)] in
  squares (fst (handleSquareClick i st)) = newSquares
  ∧ history (fst (handleSquareClick i st)) = newHistory
  ∧ currentMove (fst (handleSquareClick i st)) = length newHistory - 1
  ∧ (gameMode st ≠ Online →
     isXNext (fst (handleSquareClick i st)) = negb (isXNext st)).
Proof.
  intros (Hover & Hocc & Honline & Hcomputer). simpl.
  unfold handleSquareClick. rewrite Hover, Hocc. simpl.
  destruct (decide (gameMode st = Online)) as [Hm|Hm].
  - destruct (Honline Hm) as [-> ->]. rewrite Hm. simpl.
    destruct (_ && _); [|done].
    by destruct (simulatedGames st !! roomCode st).
  - rewrite (bool_decide_eq_false_2 _ Hm). simpl.
    destruct (decide (gameMode st = Computer)) as [Hc|Hc].
    + rewrite (Hcomputer Hc), Hc. done.
    + rewrite (bool_decide_eq_false_2 _ Hc). done.
Qed.

(** ** Claims about [resetGame] *)

(** C5 (as amended).  After [resetGame], from any state, the board is nine
    empty cells, the history has no entry, the current move is 0, the stored
    outcome is [null] (as is the outcome derived from the board) and X is to
    move. *)
Theorem resetGame_clears (notifyOpponent : bool) (st : State) :
  squares (fst (resetGame notifyOpponent st)) = replicate 9 PNull
  ∧ history (fst (resetGame notifyOpponent st)) = []
  ∧ currentMove (fst (resetGame notifyOpponent st)) = 0
  ∧ winner (fst (resetGame notifyOpponent st)) = WPlayer PNull
  ∧ calculateWinner (squares (fst (resetGame notifyOpponent st))) = WPlayer PNull
  ∧ isXNext (fst (resetGame notifyOpponent st)) = true.
Proof.
  unfold resetGame.
  destruct (resetGame_from_fields st notifyOpponent st)
    as (-> & -> & -> & -> & ->).
  repeat split; reflexivity.
Qed.

(** After a reset the history does not hold an initial entry with the empty
    board: it holds nothing. *)
Lemma resetGame_history_counterexample :
  ¬ ∃ e, history (fst (resetGame true localThreeMoves)) = [e]
         ∧ GameHistory.squares e = emptyBoard.
Proof. intros (e & He & _). vm_compute in He. discriminate He. Qed.

(** ** Claims about [jumpToMove] *)

(** [jumpToMove] on a valid index outside the online mode. *)
Lemma jumpToMove_valid (move : Z) (st : State) :
  gameMode st ≠ Online →
  (0 ≤ move < Z.of_nat (length (history st)))%Z →
  ∃ entry,
    history st !! Z.to_nat move = Some entry
    ∧ jumpToMove move st =
        (setWinner (calculateWinner (GameHistory.squares entry))
           (setIsXNext (bool_decide (GameHistory.currentPlayer entry = PO))
              (setSquares (GameHistory.squares entry)
                 (setCurrentMove (Z.to_nat move) st))), []).
Proof.
  intros Hmode Hrange.
  destruct (lookup_lt_is_Some_2 (history st) (Z.to_nat move)) as [entry He];
    [lia|].
  exists entry. split; [done|]. unfold jumpToMove.
  rewrite (proj2 (Z.ltb_ge _ _)) by lia.
  rewrite (proj2 (Z.leb_gt _ _)) by lia. simpl.
  rewrite (bool_decide_eq_false_2 _ Hmode). by rewrite He.
Qed.

(** C7.  In the local and computer modes, for every valid index [move] into
    the history, after [jumpToMove move] the board is the snapshot stored at
    that index, the current move is [move], the stored outcome is the one
    evaluated on the restored board, the turn is read off the stored entry
    (X moves next exactly when the entry records O), and the history is left
    as it was. *)
Theorem jumpToMove_restores (move : Z) (st : State) :
  gameMode st = Local ∨ gameMode st = Computer →
  (0 ≤ move < Z.of_nat (length (history st)))%Z →
  ∃ entry,
    history st !! Z.to_nat move = Some entry
    ∧ squares (fst (jumpToMove move st)) = GameHistory.squares entry
    ∧ Z.of_nat (currentMove (fst (jumpToMove move st))) = move
    ∧ winner (fst (jumpToMove move st))
      = calculateWinner (squares (fst (jumpToMove move st)))
    ∧ isXNext (fst (jumpToMove move st))
      = bool_decide (GameHistory.currentPlayer entry = PO)
    ∧ history (fst (jumpToMove move st)) = history st.
Proof.
  intros Hmode Hrange.
  assert (gameMode st ≠ Online) as Hlocal by (destruct Hmode; congruence).
  destruct (jumpToMove_valid move st Hlocal Hrange) as (entry & He & ->).
  exists entry. simpl. repeat split; try done. lia.
Qed.

Lemma jumpToMove_restores_witness :
  squares (fst (jumpToMove 0 localThreeMoves))
  = [PX; PNull; PNull; PNull; PNull; PNull; PNull; PNull; PNull]
  ∧ isXNext (fst (jumpToMove 0 localThreeMoves)) = false
  ∧ history (fst (jumpToMove 0 localThreeMoves)) = history localThreeMoves.
Proof.
  destruct (jumpToMove_restores 0 localThreeMoves) as (entry & He & Hsq & _ & _ & Hturn & Hhist).
  - left. vm_compute. reflexivity.
  - vm_compute. split; [discriminate|reflexivity].
  - vm_compute in He. injection He as <-.
    split; [exact Hsq|]. split; [exact Hturn|exact Hhist].
Defined.

(** C6.  Truncation law.  In the local and computer modes, for every valid
    index [i] into the history, [jumpToMove i] followed by an accepted click
    leaves a history of length [i + 2]: the entries up to index [i] are the
    old ones, everything that was stored beyond index [i] is gone, and the
    one entry after index [i] is the snapshot of the new move.  The current
    move is then [i + 1]. *)
Theorem jump_then_click_truncates (i : nat) (cell : Z) (st : State) :
  gameMode st = Local ∨ gameMode st = Computer →
  i < length (history st) →
  accepted cell (fst (jumpToMove (Z.of_nat i) st)) →
  let st1 := fst (jumpToMove (Z.of_nat i) st) in
  let st2 := fst (handleSquareClick cell st1) in
  length (history st2) = i + 2
  ∧ take (i + 1) (history st2) = take (i + 1) (history st)
  ∧ history st2
    = take (i + 1) (history st)
      ++ [GameHistory.mk (squares st2) (if isXNext st1 then PX else PO)]
  ∧ squares st2 = asetZ (squares st1) cell (if isXNext st1 then PX else PO)
  ∧ currentMove st2 = i + 1.
Proof.
  intros Hmode Hi Hacc st1 st2.
  assert (gameMode st ≠ Online) as Hlocal by (destruct Hmode; congruence).
  destruct (jumpToMove_valid (Z.of_nat i) st Hlocal) as (entry & He & Hjump);
    [lia|].
  assert (history st1 = history st) as Hh1 by (unfold st1; by rewrite Hjump).
  assert (currentMove st1 = i) as Hc1.
  { unfold st1. rewrite Hjump. simpl. lia. }
  assert (gameMode st1 = gameMode st) as Hm1 by (unfold st1; by rewrite Hjump).
  destruct (handleSquareClick_accepted cell st1 Hacc) as (Hsq & Hh & Hc & _).
  fold st2 in Hsq, Hh, Hc. rewrite Hh1, Hc1 in Hh. rewrite Hh1, Hc1 in Hc.
  assert (moverMark st1 = if isXNext st1 then PX else PO) as Hmark.
  { unfold moverMark. rewrite Hm1. by rewrite (bool_decide_eq_false_2 _ Hlocal). }
  rewrite Hmark in Hsq, Hh.
  assert (length (take (i + 1) (history st)) = i + 1) as Hlen
    by (rewrite length_take; lia).
  split.
  { rewrite Hh, length_app, Hlen. simpl. lia. }
  split.
  { rewrite Hh. rewrite take_app_le by lia. rewrite take_take. f_equal. lia. }
  split.
  { rewrite Hh. by rewrite Hsq. }
  split; [done|].
  rewrite Hc, length_app, Hlen. simpl. lia.
Qed.

Lemma jump_then_click_truncates_witness :
  length (history localThreeMoves) = 3
  ∧ length (history (fst (handleSquareClick 8
                            (fst (jumpToMove 0 localThreeMoves))))) = 2.
Proof.
  split; [vm_compute; reflexivity|].
  apply (jump_then_click_truncates 0 8 localThreeMoves).
  - left. vm_compute. reflexivity.
  - vm_compute. lia.
  - vm_compute. repeat split; discriminate.
Defined.

(** C10.  For every state and every index outside [0, history.length),
    [jumpToMove] returns at once: the state is unchanged and nothing is
    signalled to the user. *)
Theorem jumpToMove_out_of_range (move : Z) (st : State) :
  (move < 0 ∨ Z.of_nat (length (history st)) ≤ move)%Z →
  jumpToMove move st = (st, []).
Proof.
  intros Hout. unfold jumpToMove.
  destruct Hout as [Hneg|Hbig].
  - by rewrite (proj2 (Z.ltb_lt _ _) Hneg).
  - rewrite (proj2 (Z.leb_le _ _) Hbig). by rewrite orb_true_r.
Qed.

Lemma jumpToMove_out_of_range_witness :
  jumpToMove 3 localThreeMoves = (localThreeMoves, [])
  ∧ jumpToMove (-1) localThreeMoves = (localThreeMoves, []).
Proof.
  split.
  - apply (jumpToMove_out_of_range 3 localThreeMoves).
    right. vm_compute. discriminate.
  - apply (jumpToMove_out_of_range (-1) localThreeMoves).
    left. reflexivity.
Defined.

(** C8 (as amended).  In the online mode [jumpToMove] changes nothing, for
    every index.  It signals "Not available" when the index lies within
    [0, history.length); for an index outside that range it returns before
    the mode is looked at and signals nothing. *)
Theorem jumpToMove_online (move : Z) (st : State) :
  gameMode st = Online →
  fst (jumpToMove move st) = st
  ∧ ((0 ≤ move < Z.of_nat (length (history st)))%Z →
     snd (jumpToMove move st)
     = [Toast "Not available" "Time travel is not available in online mode."])
  ∧ (¬ (0 ≤ move < Z.of_nat (length (history st)))%Z →
     snd (jumpToMove move st) = []).
Proof.
  intros Hmode. unfold jumpToMove. rewrite Hmode. simpl.
  destruct (Z.ltb_spec move 0) as [Hneg|Hpos]; simpl.
  { split; [done|]. split; [lia|done]. }
  destruct (Z.leb_spec (Z.of_nat (length (history st))) move) as [Hbig|Hsmall];
    simpl.
  { split; [done|]. split; [lia|done]. }
  split; [done|]. split; [done|]. intros Hout. lia.
Qed.

Lemma jumpToMove_online_witness :
  jumpToMove 0 onlineAfterMove
  = (onlineAfterMove,
     [Toast "Not available" "Time travel is not available in online mode."]).
Proof.
  destruct (jumpToMove_online 0 onlineAfterMove) as (Hst & Htoast & _).
  - vm_compute. reflexivity.
  - rewrite (surjective_pairing (jumpToMove 0 onlineAfterMove)).
    rewrite Hst, Htoast; [reflexivity|].
    vm_compute. split; [discriminate|reflexivity].
Defined.

(** In a fresh online session the history is empty, index 0 is out of range,
    and [jumpToMove 0] signals nothing. *)
Lemma jumpToMove_online_silent_counterexample :
  gameMode onlineLobby = Online ∧ snd (jumpToMove 0 onlineLobby) = [].
Proof. split; vm_compute; reflexivity. Qed.

(** ** Claims about [createRoom] *)

Lemma length_toUpperCase s : String.length (toUpperCase s) = String.length s.
Proof. induction s as [|c s IH]; simpl; [done|]. by rewrite IH. Qed.

Lemma length_substring n m s :
  String.length (String.substring n m s) = min m (String.length s - n).
Proof.
  revert n m. induction s as [|c s IH]; intros n m.
  - destruct n, m; reflexivity.
  - destruct n as [|n].
    + destruct m as [|m]; simpl; [done|]. rewrite IH. f_equal. lia.
    + simpl. apply IH.
Qed.

(** The room code is as long as the draw has digits after "0.", up to 6. *)
Lemma createRoom_code_length randomText st :
  String.length (roomCode (fst (createRoom randomText st)))
  = min 6 (String.length randomText - 2).
Proof.
  assert (roomCode (fst (createRoom randomText st))
          = toUpperCase (jsSubstring 2 8 randomText)) as ->.
  { unfold createRoom, initializeSimulatedGame.
    by destruct (useSimulatedMode st). }
  rewrite length_toUpperCase. unfold jsSubstring. apply length_substring.
Qed.

(** In simulated mode [createRoom] registers, under the new code, a room with
    an empty board, X to move, the host seated and no joiner; the local
    player is the host and plays X. *)
Lemma createRoom_room randomText st :
  useSimulatedMode st = true →
  let st' := fst (createRoom randomText st) in
  simulatedGames st' !! roomCode st'
  = Some (SimulatedGame.mk (roomCode st') (replicate 9 PNull) true "host" None
            (WPlayer PNull))
  ∧ playerSymbol st' = PX ∧ isHost st' = true ∧ opponentConnected st' = false.
Proof.
  intros Hsim. unfold createRoom, initializeSimulatedGame. rewrite Hsim. simpl.
  by rewrite lookup_insert_eq.
Qed.

(** C9, evaluated where it fails.  When [Math.random()] returns 0.5, whose
    base-36 text is "0.i", [createRoom] creates the room as described (empty
    board, host X, no joiner) under the one-character code "I". *)
Theorem createRoom_short_code :
  roomCode (fst (createRoom "0.i" onlineLobby)) = "I"
  ∧ String.length (roomCode (fst (createRoom "0.i" onlineLobby))) = 1
  ∧ simulatedGames (fst (createRoom "0.i" onlineLobby)) !! "I"
    = Some (SimulatedGame.mk "I" (replicate 9 PNull) true "host" None
              (WPlayer PNull))
  ∧ playerSymbol (fst (createRoom "0.i" onlineLobby)) = PX.
Proof. repeat split; vm_compute; reflexivity. Qed.

Example createRoom_usual_code :
  roomCode (fst (createRoom "0.4fzyo82mvyr" onlineLobby)) = "4FZYO8".
Proof. vm_compute. reflexivity. Qed.

(** * Further properties of the engine *)

(** ** What a click can and cannot do *)

Lemma handleSquareClick_decide (i : Z) (st : State) :
  handleSquareClick i st = (st, []) ∨ accepted i st
  ∨ (gameMode st = Online ∧ fst (handleSquareClick i st) = st).
Proof.
  unfold handleSquareClick, accepted.
  destruct (truthyW (winner st)); simpl; [by left|].
  destruct (truthy (agetZ (squares st) i)); simpl; [by left|].
  destruct (gameMode st) eqn:Hmode; simpl.
  - right. left. repeat split; done.
  - destruct (isXNext st); simpl; [|by left].
    right. left. repeat split; done.
  - destruct (isMyTurn st); simpl; [|by right; right].
    destruct (opponentConnected st); simpl; [|by right; right].
    right. left. repeat split; done.
Qed.

Lemma handleSquareClick_gameMode (i : Z) (st : State) :
  gameMode (fst (handleSquareClick i st)) = gameMode st.
Proof.
  unfold handleSquareClick.
  repeat (match goal with
          | |- context [if ?b then (st, _) else _] => destruct b; simpl; [done|]
          end).
  destruct (negb (bool_decide (gameMode st = Online))); simpl; [done|].
  destruct (_ && _); simpl; [|done].
  by destruct (simulatedGames st !! roomCode st).
Qed.

Lemma calculateWinnerEffect_sameGame st :
  sameGame st (fst (calculateWinnerEffect st)).
Proof.
  unfold calculateWinnerEffect, sameGame.
  destruct (truthyW (calculateWinner (squares st))); [|done].
  destruct (calculateWinner (squares st)); simpl;
    destruct (_ && _); simpl; try done;
    destruct (simulatedGames st !! roomCode st); done.
Qed.

Lemma sameGame_trans st1 st2 st3 :
  sameGame st1 st2 → sameGame st2 st3 → sameGame st1 st3.
Proof.
  intros (? & ? & ? & ? & ?) (? & ? & ? & ? & ?).
  unfold sameGame. repeat split; congruence.
Qed.

Lemma handleSquareClick_computer_turn (i : Z) (st : State) :
  gameMode st = Computer → isXNext st = false →
  handleSquareClick i st = (st, []).
Proof.
  intros Hmode Hturn. unfold handleSquareClick. rewrite Hmode, Hturn. simpl.
  by destruct (truthyW (winner st) || truthy (agetZ (squares st) i)).
Qed.

Lemma handleSquareClick_game_over (i : Z) (st : State) :
  truthyW (winner st) = true → handleSquareClick i st = (st, []).
Proof. intros Hover. unfold handleSquareClick. by rewrite Hover. Qed.

(** A move event that [handleSquareClick] turns down leaves the game as it
    is, also after the winner effect. *)
Lemma step_turned_down ev st :
  isMoveEvent ev → (∀ i, handleSquareClick i st = (st, [])) →
  sameGame st (step ev st)
  ∧ winner (step ev st) = calculateWinner (squares st).
Proof.
  intros Hev Hdown.
  assert (fst (handle ev st) = st) as Hsame.
  { destruct ev as [i|move| |mode|random]; simpl in *; try done.
    - by rewrite Hdown.
    - unfold makeComputerMove.
      destruct (chooseMove random (squares st)); [by rewrite Hdown|done]. }
  unfold step. rewrite Hsame. split; [apply calculateWinnerEffect_sameGame|].
  by destruct (calculateWinnerEffect_squares st) as (_ & _ & ->).
Qed.

(** X1.  Against the computer, once O is to move the game stands still:
    no click and no firing of the computer's timer changes the board, the
    history, the current move or the turn.  ([makeComputerMove] picks a
    cell, but hands it to [handleSquareClick], which refuses every call made
    while O is to move.) *)
Theorem computer_turn_frozen (evs : list Event) (st : State) :
  gameMode st = Computer → isXNext st = false →
  Forall isMoveEvent evs →
  sameGame st (run evs st).
Proof.
  intros Hmode Hturn Hevs. revert st Hmode Hturn.
  induction Hevs as [|ev evs Hev _ IH]; intros st Hmode Hturn.
  { unfold sameGame. done. }
  simpl.
  destruct (step_turned_down ev st Hev) as [Hstep _].
  { intros i. by apply handleSquareClick_computer_turn. }
  eapply sameGame_trans; [exact Hstep|].
  destruct Hstep as (_ & _ & _ & Hx & Hm).
  apply IH; congruence.
Qed.

Lemma computer_turn_frozen_witness :
  squares (run [EvComputerTimer (λ _, 0); EvClick 4; EvComputerTimer (λ _, 0)]
             computerToMove)
  = [PX; PNull; PNull; PNull; PNull; PNull; PNull; PNull; PNull].
Proof.
  destruct (computer_turn_frozen
              [EvComputerTimer (λ _, 0); EvClick 4; EvComputerTimer (λ _, 0)]
              computerToMove) as (Hsq & _).
  - vm_compute. reflexivity.
  - vm_compute. reflexivity.
  - repeat constructor.
  - rewrite Hsq. vm_compute. reflexivity.
Defined.

(** X2.  Once the stored outcome is a win or a draw, and it is the outcome
    of the board, clicks and computer timers change nothing: the board, the
    history, the current move, the turn and the outcome stay, however many
    of them arrive. *)
Theorem game_over_frozen (evs : list Event) (st : State) :
  truthyW (winner st) = true → winner st = calculateWinner (squares st) →
  Forall isMoveEvent evs →
  sameGame st (run evs st) ∧ winner (run evs st) = winner st.
Proof.
  intros Hover Hwinner Hevs. revert st Hover Hwinner.
  induction Hevs as [|ev evs Hev _ IH]; intros st Hover Hwinner.
  { unfold sameGame. done. }
  simpl.
  destruct (step_turned_down ev st Hev) as [Hstep Hw].
  { intros i. by apply handleSquareClick_game_over. }
  assert (winner (step ev st) = winner st) as Hw' by congruence.
  destruct (IH (step ev st)) as [Hrest Hwrest].
  - by rewrite Hw'.
  - destruct Hstep as (Hsq & _). by rewrite Hw, Hsq.
  - split; [by eapply sameGame_trans|congruence].
Qed.

Lemma game_over_frozen_witness :
  squares (run [EvClick 3; EvClick 5; EvComputerTimer (λ _, 0)] localWonByX)
  = [PX; PO; PO; PNull; PX; PNull; PNull; PNull; PX]
  ∧ winner (run [EvClick 3; EvClick 5; EvComputerTimer (λ _, 0)] localWonByX)
    = WPlayer PX.
Proof.
  destruct (game_over_frozen [EvClick 3; EvClick 5; EvComputerTimer (λ _, 0)]
              localWonByX) as ((Hsq & _) & Hw).
  - vm_compute. reflexivity.
  - vm_compute. reflexivity.
  - repeat constructor.
  - rewrite Hsq, Hw. split; vm_compute; reflexivity.
Defined.

(** ** Invariants of the history *)

Lemma calculateWinnerEffect_core st :
  squares (fst (calculateWinnerEffect st)) = squares st
  ∧ history (fst (calculateWinnerEffect st)) = history st
  ∧ currentMove (fst (calculateWinnerEffect st)) = currentMove st
  ∧ gameMode (fst (calculateWinnerEffect st)) = gameMode st.
Proof. destruct (calculateWinnerEffect_sameGame st) as (? & ? & ? & _ & ?). done. Qed.

Lemma setMode_fields mode st :
  setMode mode st = (st, [])
  ∨ (squares (fst (setMode mode st)) = emptyBoard
     ∧ history (fst (setMode mode st)) = []
     ∧ currentMove (fst (setMode mode st)) = 0).
Proof.
  unfold setMode. destruct (bool_decide (mode = gameMode st)); [by left|].
  right.
  pose proof (resetGame_from_fields st false (setGameMode mode st))
    as (Hsq & Hh & Hc & _).
  destruct (resetGame_from st false (setGameMode mode st)) as [st2 eff].
  simpl in *. by destruct (bool_decide (mode = Online)).
Qed.

Lemma handleSquareClick_pointerInv i st :
  pointerInv st → pointerInv (fst (handleSquareClick i st)).
Proof.
  intros Hinv.
  destruct (handleSquareClick_decide i st) as [->|[Hacc|[_ ->]]]; [done| |done].
  destruct (handleSquareClick_accepted i st Hacc) as (Hsq & Hh & Hc & _).
  right. rewrite Hsq, Hh, Hc.
  exists (GameHistory.mk (asetZ (squares st) i (moverMark st))
            (if isXNext st then PX else PO)).
  split; [|reflexivity].
  rewrite length_app. simpl.
  rewrite lookup_app_r by lia.
  by replace (_ - _) with 0 by lia.
Qed.

Lemma jumpToMove_pointerInv move st :
  pointerInv st → pointerInv (fst (jumpToMove move st)).
Proof.
  intros Hinv. unfold jumpToMove.
  destruct (_ || _) eqn:Hrange; simpl; [done|].
  destruct (bool_decide _); simpl; [done|].
  destruct (history st !! Z.to_nat move) as [entry|] eqn:E; simpl; [|done].
  right. exists entry. by split.
Qed.

Lemma handle_pointerInv ev st : pointerInv st → pointerInv (fst (handle ev st)).
Proof.
  intros Hinv. destruct ev as [i|move| |mode|random]; unfold handle.
  - by apply handleSquareClick_pointerInv.
  - by apply jumpToMove_pointerInv.
  - left. destruct (resetGame_from_fields st true st) as (? & ? & ? & _). done.
  - destruct (setMode_fields mode st) as [->|(? & ? & ?)]; [done|by left].
  - unfold makeComputerMove. destruct (chooseMove random (squares st)); [|done].
    by apply handleSquareClick_pointerInv.
Qed.

Lemma initialState_pointerInv : pointerInv initialState.
Proof. by left. Qed.

(** X3.  In every session reachable from the first render, either no move
    is recorded yet (the history is empty, the current move is 0 and the
    board is empty), or the current move is a valid index into the history
    and the snapshot stored there is the live board. *)
Theorem reachable_pointer (st : State) :
  reachable st →
  (history st = [] ∧ currentMove st = 0 ∧ squares st = replicate 9 PNull)
  ∨ (∃ e, history st !! currentMove st = Some e
          ∧ currentMove st < length (history st)
          ∧ GameHistory.squares e = squares st).
Proof.
  intros Hst.
  assert (pointerInv st) as [Hempty|(e & He & Hsq)].
  { induction Hst as [|st ev _ IH]; [apply initialState_pointerInv|].
    apply (handle_pointerInv ev) in IH. unfold step, pointerInv.
    destruct (calculateWinnerEffect_core (fst (handle ev st)))
      as (-> & -> & -> & _).
    exact IH. }
  - by left.
  - right. exists e. split; [done|]. split; [|done]. by apply lookup_lt_Some in He.
Qed.

Lemma reachable_pointer_witness :
  (history (run [EvJump 1] localThreeMoves) = []
   ∧ currentMove (run [EvJump 1] localThreeMoves) = 0
   ∧ squares (run [EvJump 1] localThreeMoves) = replicate 9 PNull)
  ∨ (∃ e, history (run [EvJump 1] localThreeMoves)
          !! currentMove (run [EvJump 1] localThreeMoves) = Some e
          ∧ currentMove (run [EvJump 1] localThreeMoves)
            < length (history (run [EvJump 1] localThreeMoves))
          ∧ GameHistory.squares e = squares (run [EvJump 1] localThreeMoves)).
Proof.
  apply (reachable_pointer (run [EvJump 1] localThreeMoves)).
  apply reachable_run. unfold localThreeMoves.
  apply reachable_run. constructor.
Defined.

Lemma handleSquareClick_computerHistoryInv i st :
  computerHistoryInv st → computerHistoryInv (fst (handleSquareClick i st)).
Proof.
  intros Hinv.
  destruct (handleSquareClick_decide i st) as [->|[Hacc|[_ ->]]]; [done| |done].
  intros Hmode. rewrite handleSquareClick_gameMode in Hmode.
  destruct (handleSquareClick_accepted i st Hacc) as (_ & -> & _).
  destruct Hacc as (_ & _ & _ & Hturn). rewrite (Hturn Hmode).
  apply Forall_app. split; [by apply Forall_take, Hinv|].
  by apply Forall_singleton.
Qed.

Lemma handle_computerHistoryInv ev st :
  computerHistoryInv st → computerHistoryInv (fst (handle ev st)).
Proof.
  intros Hinv. destruct ev as [i|move| |mode|random]; unfold handle.
  - by apply handleSquareClick_computerHistoryInv.
  - unfold jumpToMove.
    destruct (_ || _); simpl; [done|].
    destruct (bool_decide _); simpl; [done|].
    by destruct (history st !! Z.to_nat move).
  - intros _. destruct (resetGame_from_fields st true st) as (_ & Hh & _).
    unfold resetGame. rewrite Hh. constructor.
  - destruct (setMode_fields mode st) as [->|(_ & Hh & _)]; [done|].
    intros _. rewrite Hh. constructor.
  - unfold makeComputerMove. destruct (chooseMove random (squares st)); [|done].
    by apply handleSquareClick_computerHistoryInv.
Qed.

Lemma reachable_computerHistoryInv st : reachable st → computerHistoryInv st.
Proof.
  induction 1 as [|st ev _ IH].
  - intros _. constructor.
  - apply (handle_computerHistoryInv ev) in IH. unfold step, computerHistoryInv.
    destruct (calculateWinnerEffect_core (fst (handle ev st)))
      as (_ & -> & _ & ->).
    exact IH.
Qed.

(** X4.  In a reachable session against the computer every history entry
    records X as the mover.  [jumpToMove] gives the turn to X only when the
    entry records O, so after a jump to any valid index it is O's turn. *)
Theorem computer_jump_gives_turn_to_O (move : Z) (st : State) :
  reachable st → gameMode st = Computer →
  (0 ≤ move < Z.of_nat (length (history st)))%Z →
  Forall (λ e, GameHistory.currentPlayer e = PX) (history st)
  ∧ isXNext (fst (jumpToMove move st)) = false
  ∧ gameMode (fst (jumpToMove move st)) = Computer.
Proof.
  intros Hst Hmode Hrange.
  pose proof (reachable_computerHistoryInv st Hst Hmode) as Hall.
  split; [done|].
  destruct (jumpToMove_valid move st) as (entry & He & ->);
    [congruence|done|].
  simpl. split; [|done].
  rewrite (Forall_lookup_1 _ _ _ _ Hall He). reflexivity.
Qed.

Lemma computer_jump_gives_turn_to_O_witness :
  isXNext (fst (jumpToMove 0 computerToMove)) = false.
Proof.
  apply (computer_jump_gives_turn_to_O 0 computerToMove).
  - apply (reachable_run [EvClick 0]). constructor.
  - vm_compute. reflexivity.
  - vm_compute. split; [discriminate|reflexivity].
Defined.

(** ** The rendered board *)

Lemma agetZ_of_nat squares (i : nat) : agetZ squares (Z.of_nat i) = aget squares i.
Proof.
  unfold agetZ. rewrite (proj2 (Z.ltb_ge _ _)) by lia. by rewrite Nat2Z.id.
Qed.

Lemma asetZ_of_nat squares (i : nat) v :
  asetZ squares (Z.of_nat i) v = aset squares i v.
Proof.
  unfold asetZ. rewrite (proj2 (Z.ltb_ge _ _)) by lia. by rewrite Nat2Z.id.
Qed.

Lemma lineIncludes_true l i :
  lineIncludes l i = true ↔ l.1.1 = i ∨ l.1.2 = i ∨ l.2 = i.
Proof.
  destruct l as [[a b] c]. unfold lineIncludes. simpl.
  rewrite !orb_true_iff, !Nat.eqb_eq. tauto.
Qed.

(** Every cell of the table of lines is one of the nine squares. *)
Lemma lines_bound l i : l ∈ lines → lineIncludes l i = true → i < 9.
Proof.
  intros Hl Hi. apply lineIncludes_true in Hi.
  unfold lines in Hl. repeat (apply elem_of_cons in Hl as [->|Hl]);
    [simpl in Hi; lia..|by apply elem_of_nil in Hl].
Qed.

Lemma wins_cell squares l p i :
  wins squares l p → lineIncludes l i = true → aget squares i = p.
Proof.
  intros (_ & Ha & Hb & Hc) Hi. apply lineIncludes_true in Hi.
  destruct Hi as [<-|[<-|<-]]; done.
Qed.

(** X5.  In a session whose stored outcome is the one of the board, the
    button of square [i] is highlighted exactly when some player has won
    and [i] lies on a complete line of that player.  Every complete line of
    the winner is lit, not only the first one of the table, and a square
    off those lines is never lit. *)
Theorem highlighted_iff (i : nat) (st : State) :
  winner st = calculateWinner (squares st) →
  highlighted i st = true ↔
  ∃ p l, winner st = WPlayer p ∧ l ∈ lines ∧ lineIncludes l i = true
         ∧ wins (squares st) l p.
Proof.
  intros Hwinner. unfold highlighted. split.
  - rewrite !andb_true_iff.
    intros [[[Htruthy Hnodraw] Hsame] Hsome].
    apply bool_decide_eq_true in Hsame.
    apply existsb_exists in Hsome as (j & _ & Hsome).
    apply existsb_exists in Hsome as (l & Hl & Hline).
    rewrite !andb_true_iff in Hline.
    destruct Hline as [[[Hi _] _] Hevery].
    exists (aget (squares st) i), l.
    split; [congruence|]. split; [by apply list_elem_of_In|]. split; [done|].
    destruct l as [[a b] c]. unfold lineEvery in Hevery.
    rewrite !andb_true_iff, !bool_decide_eq_true in Hevery.
    destruct Hevery as [[Ha Hb] Hc].
    rewrite Hwinner, Hsame in Htruthy. simpl in Htruthy.
    by repeat split.
  - intros (p & l & Hw & Hl & Hi & Hwins).
    pose proof (wins_cell _ _ _ _ Hwins Hi) as Hcell.
    pose proof Hwins as (Htruthy & Ha & Hb & Hc).
    rewrite !andb_true_iff. split; [split; [split|]|].
    + by rewrite Hw.
    + rewrite Hw. by rewrite bool_decide_eq_false_2.
    + apply bool_decide_eq_true. congruence.
    + apply existsb_exists. exists i. split.
      * pose proof (lines_bound l i Hl Hi) as Hlt. simpl. lia.
      * apply existsb_exists. exists l. split; [by apply list_elem_of_In|].
        rewrite !andb_true_iff. split; [split; [split|]|]; try done.
        -- by apply bool_decide_eq_true.
        -- destruct l as [[a b] c]. unfold lineEvery. simpl in *.
           rewrite !andb_true_iff, !bool_decide_eq_true. by rewrite Ha, Hb, Hc.
Qed.

Lemma highlighted_iff_witness :
  highlighted 4 localWonByX = true ∧ highlighted 1 localWonByX = false.
Proof.
  split.
  - apply (proj2 (highlighted_iff 4 localWonByX ltac:(vm_compute; reflexivity))).
    exists PX, (0, 4, 8).
    split; [vm_compute; reflexivity|].
    split; [apply list_elem_of_In; simpl; tauto|].
    split; [reflexivity|]. repeat split; vm_compute; reflexivity.
  - destruct (highlighted 1 localWonByX) eqn:E; [|reflexivity].
    apply (proj1 (highlighted_iff 1 localWonByX ltac:(vm_compute; reflexivity)))
      in E as (p & l & Hw & _ & Hi & Hwins).
    pose proof (wins_cell _ _ _ _ Hwins Hi) as Hcell.
    vm_compute in Hw. vm_compute in Hcell. congruence.
Defined.

(** X6.  The [disabled] attribute tells the truth about the handler.  A
    click on a disabled square leaves the whole state as it is; a click on
    an enabled square is accepted, puts the mover's mark on that square and
    changes no other square. *)
Theorem button_matches_handler (i : nat) (st : State) :
  (buttonDisabled i st = true →
   fst (handleSquareClick (Z.of_nat i) st) = st)
  ∧ (buttonDisabled i st = false →
     accepted (Z.of_nat i) st
     ∧ aget (squares (fst (handleSquareClick (Z.of_nat i) st))) i
       = moverMark st
     ∧ ∀ j, j ≠ i →
            aget (squares (fst (handleSquareClick (Z.of_nat i) st))) j
            = aget (squares st) j).
Proof.
  split.
  - unfold buttonDisabled, handleSquareClick. rewrite agetZ_of_nat.
    destruct (truthyW (winner st)); simpl; [by destruct (gameMode st)|].
    destruct (truthy (aget (squares st) i)); simpl; [by destruct (gameMode st)|].
    destruct (gameMode st); simpl; [done| |].
    + by destruct (isXNext st).
    + destruct (isMyTurn st); simpl; [|done].
      by destruct (opponentConnected st).
  - intros Henabled.
    assert (accepted (Z.of_nat i) st) as Hacc.
    { unfold buttonDisabled in Henabled. unfold accepted.
      rewrite agetZ_of_nat.
      destruct (gameMode st) eqn:Hmode;
        repeat (apply orb_false_iff in Henabled as [Henabled ?]).
      - repeat split; done.
      - rewrite bool_decide_eq_true_2 in * by done.
        destruct (isXNext st); [|done]. repeat split; done.
      - destruct (isMyTurn st); [|done].
        destruct (opponentConnected st); [|done]. repeat split; done. }
    split; [done|].
    destruct (handleSquareClick_accepted _ st Hacc) as (-> & _).
    rewrite asetZ_of_nat. split; [apply aget_aset_eq|].
    intros j Hj. by apply aget_aset_ne.
Qed.

Lemma button_matches_handler_witness :
  fst (handleSquareClick 1 localThreeMoves) = localThreeMoves
  ∧ aget (squares (fst (handleSquareClick 8 localThreeMoves))) 8 = PO.
Proof.
  split.
  - apply (proj1 (button_matches_handler 1 localThreeMoves)).
    vm_compute. reflexivity.
  - destruct (proj2 (button_matches_handler 8 localThreeMoves)) as (_ & Hcell & _).
    + vm_compute. reflexivity.
    + etrans; [exact Hcell|]. vm_compute. reflexivity.
Defined.

(** ** The computer policy on the board *)

Lemma aget_null_lt squares i : aget squares i = PNull → i < length squares.
Proof.
  unfold aget. intros Hnull.
  destruct (squares !! i) as [c|] eqn:E; [by apply lookup_lt_Some in E|done].
Qed.

Lemma findWinningMove_sound squares player z :
  findWinningMove squares player = z → z ≠ (-1)%Z →
  ∃ i, z = Z.of_nat i ∧ i < length squares ∧ winsAt squares player i.
Proof.
  intros Hz Hne. unfold findWinningMove in Hz.
  destruct (findWinningMove_from_range squares player 0 (length squares))
    as [Hnone|(k & Hk & Hrange)]; [congruence|].
  exists k. split; [congruence|]. split; [lia|].
  by apply findWinningMove_from_found in Hk as (_ & Hw & _).
Qed.

(** X7.  [makeComputerMove] picks a move exactly when the game is in
    progress, and the cell it picks is always an empty cell of the board:
    it never aims at an occupied square or outside the array. *)
Theorem chooseMove_empty_cell (random : nat → nat) (squares : list Player) :
  (∀ n, 0 < n → random n < n) →
  (chooseMove random squares = None ↔ calculateWinner squares ≠ WPlayer PNull)
  ∧ (∀ z, chooseMove random squares = Some z →
          ∃ i, z = Z.of_nat i ∧ i < length squares ∧ aget squares i = PNull).
Proof.
  intros Hrandom. unfold chooseMove.
  destruct (truthyW (calculateWinner squares)) eqn:Hover; simpl.
  { split; [|done]. split; [|done]. intros _ Hnull. by rewrite Hnull in Hover. }
  apply calculateWinner_falsy in Hover.
  rewrite (calculateWinner_null_not_full _ Hover).
  assert (∀ o : option Z,
            (∃ z, o = Some z) →
            (∀ z, o = Some z →
                  ∃ i, z = Z.of_nat i ∧ i < length squares
                       ∧ aget squares i = PNull) →
            (o = None ↔ calculateWinner squares ≠ WPlayer PNull)
            ∧ (∀ z, o = Some z →
                    ∃ i, z = Z.of_nat i ∧ i < length squares
                         ∧ aget squares i = PNull)) as Hwrap.
  { intros o [z ->] Hcell. split; [|done]. split; [done|]. intros Hne. done. }
  destruct (Z.eqb_spec (findWinningMove squares PO) (-1)) as [Hwin|Hwin]; simpl.
  2:{ apply Hwrap; [eauto|]. intros z [= <-].
      destruct (findWinningMove_sound squares PO _ eq_refl Hwin)
        as (i & Hi & Hlt & Hnull & _). eauto. }
  destruct (Z.eqb_spec (findWinningMove squares PX) (-1)) as [Hblock|Hblock];
    simpl.
  2:{ apply Hwrap; [eauto|]. intros z [= <-].
      destruct (findWinningMove_sound squares PX _ eq_refl Hblock)
        as (i & Hi & Hlt & Hnull & _). eauto. }
  case_bool_decide as Hcentre.
  { apply Hwrap; [eauto|]. intros z [= <-]. exists 4.
    split; [done|]. split; [by apply aget_null_lt|done]. }
  destruct (filter (λ i, aget squares i = PNull) corners) as [|c0 cs] eqn:Hcorners.
  - simpl.
    destruct (everyNotNull_false _ (calculateWinner_null_not_full _ Hover))
      as (i0 & Hi0 & Hnull0).
    assert (availableSquares squares ≠ []) as Hne.
    { intros Hnil.
      assert (Z.of_nat i0 ∈ availableSquares squares) as Hin
        by (apply availableSquares_elem; eauto).
      rewrite Hnil in Hin. by apply elem_of_nil in Hin. }
    rewrite (length_pos_ltb _ Hne).
    destruct (random_pick random _ Hrandom Hne) as (z & Hz & Hin).
    rewrite Hz. apply Hwrap; [eauto|]. intros z' [= <-].
    by apply availableSquares_elem in Hin.
  - assert (c0 :: cs ≠ []) as Hne by done.
    rewrite (length_pos_ltb _ Hne).
    destruct (random_pick random _ Hrandom Hne) as (c & Hc & Hin).
    rewrite Hc. simpl. apply Hwrap; [eauto|]. intros z [= <-].
    rewrite <- Hcorners in Hin. apply list_elem_of_filter in Hin as [Hnull _].
    exists c. split; [done|]. split; [by apply aget_null_lt|done].
Qed.

Lemma chooseMove_empty_cell_witness :
  chooseMove (λ _, 0) [PX; PO; PO; PNull; PX; PNull; PNull; PNull; PX] = None
  ∧ ∃ i, chooseMove (λ _, 0)
           [PX; PNull; PNull; PNull; PO; PNull; PNull; PNull; PNull]
         = Some (Z.of_nat i)
         ∧ aget [PX; PNull; PNull; PNull; PO; PNull; PNull; PNull; PNull] i
           = PNull.
Proof.
  split.
  - apply (proj1 (chooseMove_empty_cell (λ _, 0)
                    [PX; PO; PO; PNull; PX; PNull; PNull; PNull; PX]
                    (λ n Hn, Hn))).
    discriminate.
  - destruct (proj2 (chooseMove_empty_cell (λ _, 0)
                       [PX; PNull; PNull; PNull; PO; PNull; PNull; PNull; PNull]
                       (λ n Hn, Hn)) 2%Z eq_refl) as (i & Hi & _ & Hnull).
    exists i. split; [by rewrite <- Hi|exact Hnull].
Defined.

Lemma wins_aset_off_line squares n m l p :
  lineIncludes l n = false → wins (aset squares n m) l p → wins squares l p.
Proof.
  intros Hoff (Ht & Ha & Hb & Hc). destruct l as [[a b] c].
  unfold lineIncludes in Hoff. simpl in *.
  apply orb_false_iff in Hoff as [Hoff Hc'].
  apply orb_false_iff in Hoff as [Ha' Hb'].
  apply Nat.eqb_neq in Ha', Hb', Hc'.
  rewrite aget_aset_ne in Ha, Hb, Hc by done. by repeat split.
Qed.

(** On a board without a complete line, placing a mark wins for its owner
    exactly when it completes one of the owner's lines. *)
Lemma calculateWinner_aset_hasLine squares i p :
  noWin squares → truthy p = true →
  calculateWinner (aset squares i p) = WPlayer p ↔ hasLine (aset squares i p) p.
Proof.
  intros Hno Hp. unfold calculateWinner. split.
  - destruct (scanLines (aset squares i p) lines) as [q|] eqn:E.
    + intros [= ->]. apply scanLines_Some in E as (k & l & Hk & Hw & _).
      exists l. split; [by apply list_elem_of_lookup_2 in Hk|done].
    + destruct (everyNotNull (aset squares i p)); [done|].
      intros [= <-]. done.
  - intros (l & Hl & Hw).
    destruct (scanLines (aset squares i p) lines) as [q|] eqn:E.
    + apply scanLines_Some in E as (k & l' & Hk & Hw' & _).
      apply list_elem_of_lookup_2 in Hk.
      by rewrite (wins_aset_through _ _ _ _ _ Hno Hk Hw').
    + destruct (proj1 (scanLines_None _ _) E l p Hl Hw).
Qed.

(** X8.  On a board on which no line is complete yet, and for a player
    "X" or "O": the cell reported by [findWinningMove] is empty and
    completes a line of that player running through that very cell; and
    [findWinningMove] reports [-1] exactly when no empty cell would complete
    a line of the player. *)
Theorem findWinningMove_completes_line (squares : list Player) (player : Player) :
  noWin squares → truthy player = true →
  (∀ i, findWinningMove squares player = Z.of_nat i →
        aget squares i = PNull
        ∧ ∃ l, l ∈ lines ∧ lineIncludes l i = true
               ∧ wins (aset squares i player) l player)
  ∧ (findWinningMove squares player = (-1)%Z ↔
     ∀ i, aget squares i = PNull → ¬ hasLine (aset squares i player) player).
Proof.
  intros Hno Hp. split.
  - intros i Hi.
    destruct (findWinningMove_sound squares player _ Hi) as (k & Hk & _ & Hnull & Hw);
      [lia|].
    apply Nat2Z.inj in Hk as <-. split; [done|].
    apply calculateWinner_aset_hasLine in Hw as (l & Hl & Hwins); [|done..].
    exists l. split; [done|]. split; [|done].
    destruct (lineIncludes l i) eqn:Hoff; [done|].
    destruct (Hno l player Hl). by apply (wins_aset_off_line _ i player).
  - unfold findWinningMove. rewrite findWinningMove_from_none. split.
    + intros Hnone i Hnull Hline.
      apply (Hnone i); [pose proof (aget_null_lt _ _ Hnull); lia|].
      split; [done|]. by apply calculateWinner_aset_hasLine.
    + intros Hnone i _ [Hnull Hw]. apply (Hnone i Hnull).
      by apply calculateWinner_aset_hasLine.
Qed.

Lemma findWinningMove_completes_line_witness :
  ∃ l, l ∈ lines ∧ lineIncludes l 2 = true
       ∧ wins (aset [PX; PX; PNull; PNull; PO; PNull; PNull; PNull; PNull] 2 PX)
           l PX.
Proof.
  apply (proj1 (findWinningMove_completes_line
                  [PX; PX; PNull; PNull; PO; PNull; PNull; PNull; PNull] PX
                  ltac:(apply noWin_scanLines; reflexivity) eq_refl) 2).
  reflexivity.
Defined.

(** ** Online play through an in-memory room *)

Lemma roomCode_eqb st : roomCode st ≠ "" → String.eqb (roomCode st) "" = false.
Proof. intros Hne. by apply String.eqb_neq. Qed.

(** X9.  An accepted click in an online session with a room puts the local
    player's own symbol on the square, hands the turn over, and writes the
    new board into the room while flipping the room's turn flag; the room's
    seats and outcome and all other rooms are untouched.  The local
    [isXNext] flag is not touched. *)
Theorem online_click_updates_room (i : Z) (st : State) (game : SimulatedGame.t) :
  inRoom st game → accepted i st →
  let st' := fst (handleSquareClick i st) in
  squares st' = asetZ (squares st) i (playerSymbol st)
  ∧ simulatedGames st' !! roomCode st
    = Some (SimulatedGame.mk (SimulatedGame.id game) (squares st')
              (negb (SimulatedGame.isXNext game)) (SimulatedGame.playerX game)
              (SimulatedGame.playerO game) (SimulatedGame.winner game))
  ∧ (∀ code, code ≠ roomCode st →
             simulatedGames st' !! code = simulatedGames st !! code)
  ∧ isMyTurn st' = false ∧ isXNext st' = isXNext st
  ∧ roomCode st' = roomCode st.
Proof.
  intros (Hmode & Hsim & Hcode & Hroom) (Hover & Hocc & Honline & _).
  destruct (Honline Hmode) as [Hturn Hconn]. simpl.
  unfold handleSquareClick, moverMark.
  rewrite Hover, Hocc, Hmode, Hturn, Hconn, Hsim, (roomCode_eqb _ Hcode), Hroom.
  simpl. split; [done|]. split; [by rewrite lookup_insert_eq|].
  split; [|done]. intros code Hne. by rewrite lookup_insert_ne.
Qed.

Lemma online_click_updates_room_witness :
  squares onlineAfterMove
  = [PNull; PNull; PNull; PNull; PX; PNull; PNull; PNull; PNull]
  ∧ (SimulatedGame.squares <$> simulatedGames onlineAfterMove !! "4FZYO8")
    = Some [PNull; PNull; PNull; PNull; PX; PNull; PNull; PNull; PNull].
Proof.
  destruct (online_click_updates_room 4
              (setOpponentConnected true
                 (fst (createRoom "0.4fzyo82mvyr" onlineLobby)))
              (SimulatedGame.mk "4FZYO8" emptyBoard true "host" None
                 (WPlayer PNull)))
    as (Hsq & Hroom & _).
  - repeat split; vm_compute; (reflexivity || discriminate).
  - repeat split; vm_compute; (reflexivity || discriminate).
  - split; [vm_compute; reflexivity|]. vm_compute. reflexivity.
Defined.

(** X10.  The simulated opponent only ever marks an empty square of the
    room's board.  When the room's game is decided or its board has no empty
    square it does nothing.  Otherwise it places the mark of the side the
    room says is to move on one empty square, flips the room's turn flag,
    copies the new board to the local board, gives the turn to the local
    player and appends the snapshot to the history. *)
Theorem simulatedOpponentMove_legal (random : nat → nat) (st : State)
    (game : SimulatedGame.t) :
  (∀ n, 0 < n → random n < n) →
  simulatedGames st !! roomCode st = Some game →
  (truthyW (SimulatedGame.winner game) = true
   ∨ (∀ i, aget (SimulatedGame.squares game) i ≠ PNull) →
   simulatedOpponentMove random st = (st, []))
  ∧ (truthyW (SimulatedGame.winner game) = false →
     (∃ i, aget (SimulatedGame.squares game) i = PNull) →
     let st' := fst (simulatedOpponentMove random st) in
     let mark := if SimulatedGame.isXNext game then PX else PO in
     ∃ i, i < length (SimulatedGame.squares game)
          ∧ aget (SimulatedGame.squares game) i = PNull
          ∧ squares st' = aset (SimulatedGame.squares game) i mark
          ∧ simulatedGames st' !! roomCode st
            = Some (SimulatedGame.mk (SimulatedGame.id game) (squares st')
                      (negb (SimulatedGame.isXNext game))
                      (SimulatedGame.playerX game) (SimulatedGame.playerO game)
                      (SimulatedGame.winner game))
          ∧ isMyTurn st' = true
          ∧ isXNext st' = negb (SimulatedGame.isXNext game)
          ∧ history st'
            = take (currentMove st + 1) (history st)
              ++ [GameHistory.mk (squares st') mark]
          ∧ currentMove st' = length (history st') - 1).
Proof.
  intros Hrandom Hroom. unfold simulatedOpponentMove. rewrite Hroom. split.
  - intros [Hover|Hfull]; [by rewrite Hover|].
    destruct (truthyW (SimulatedGame.winner game)); [done|].
    destruct (availableSquares (SimulatedGame.squares game)) as [|z zs] eqn:E;
      [done|].
    assert (z ∈ availableSquares (SimulatedGame.squares game)) as Hin
      by (rewrite E; left).
    apply availableSquares_elem in Hin as (i & _ & _ & Hnull).
    by destruct (Hfull i).
  - intros Hopen (i0 & Hnull0). rewrite Hopen.
    assert (availableSquares (SimulatedGame.squares game) ≠ []) as Hne.
    { intros Hnil.
      assert (Z.of_nat i0 ∈ availableSquares (SimulatedGame.squares game)) as Hin.
      { apply availableSquares_elem. exists i0. split; [done|].
        split; [by apply aget_null_lt|done]. }
      rewrite Hnil in Hin. by apply elem_of_nil in Hin. }
    rewrite (length_pos_ltb _ Hne).
    destruct (random_pick random _ Hrandom Hne) as (z & -> & Hin).
    apply availableSquares_elem in Hin as (i & -> & Hi & Hnull).
    simpl. exists i. rewrite asetZ_of_nat.
    split; [done|]. split; [done|]. split; [done|].
    split; [by rewrite lookup_insert_eq|]. done.
Qed.

Lemma simulatedOpponentMove_legal_witness :
  ∃ i, aget [PNull; PNull; PNull; PNull; PX; PNull; PNull; PNull; PNull] i
       = PNull
       ∧ squares (fst (simulatedOpponentMove (λ _, 0) onlineAfterMove))
         = aset [PNull; PNull; PNull; PNull; PX; PNull; PNull; PNull; PNull] i PO.
Proof.
  destruct (simulatedOpponentMove_legal (λ _, 0) onlineAfterMove
              (SimulatedGame.mk "4FZYO8"
                 [PNull; PNull; PNull; PNull; PX; PNull; PNull; PNull; PNull]
                 false "host" None (WPlayer PNull))
              (λ n Hn, Hn)) as [_ Hmove].
  - vm_compute. reflexivity.
  - destruct Hmove as (i & _ & Hnull & Hsq & _).
    + reflexivity.
    + exists 0. reflexivity.
    + exists i. split; [exact Hnull|exact Hsq].
Defined.

Lemma jsonDiffers_refl squares : jsonDiffers squares squares = false.
Proof. unfold jsonDiffers. by rewrite bool_decide_eq_true_2. Qed.

(** What the sync effect leaves behind in a room session. *)
Lemma syncSimulatedGame_inRoom (st : State) (game : SimulatedGame.t) :
  inRoom st game →
  syncSimulatedGame st =
  (mkState
     (if jsonDiffers (squares st) (SimulatedGame.squares game)
      then SimulatedGame.squares game else squares st)
     (isXNext st)
     (if truthyW (SimulatedGame.winner game)
         && negb (bool_decide (SimulatedGame.winner game = winner st))
      then SimulatedGame.winner game else winner st)
     (history st) (currentMove st) (gameMode st) (roomCode st) (isHost st)
     (playerSymbol st) (opponentConnected st)
     (negb ((bool_decide (playerSymbol st = PX)
             && negb (SimulatedGame.isXNext game))
            || (bool_decide (playerSymbol st = PO)
                && SimulatedGame.isXNext game)))
     (showLobby st) (simulatedGames st) (useSimulatedMode st) (showConfetti st),
   []).
Proof.
  intros (Hmode & Hsim & Hcode & Hroom). unfold syncSimulatedGame.
  pose proof (roomCode_eqb _ Hcode) as Hcode'.
  destruct st; simpl in *. subst.
  rewrite Hcode', Hroom. simpl.
  destruct (_ || _); destruct (jsonDiffers _ _); destruct (_ && _); reflexivity.
Qed.

(** X11.  In a room session the sync effect makes the local board agree
    with the room's board (as [JSON.stringify] sees them), takes over a
    decided outcome of the room, and sets [isMyTurn] from the room's turn
    flag and the local player's symbol.  It never writes to the room, the
    history or the current move. *)
Theorem syncSimulatedGame_follows_room (st : State) (game : SimulatedGame.t) :
  inRoom st game →
  let st' := fst (syncSimulatedGame st) in
  jsonCell <$> squares st' = jsonCell <$> SimulatedGame.squares game
  ∧ (truthyW (SimulatedGame.winner game) = true →
     winner st' = SimulatedGame.winner game)
  ∧ (playerSymbol st = PX → isMyTurn st' = SimulatedGame.isXNext game)
  ∧ (playerSymbol st = PO → isMyTurn st' = negb (SimulatedGame.isXNext game))
  ∧ simulatedGames st' = simulatedGames st
  ∧ history st' = history st ∧ currentMove st' = currentMove st.
Proof.
  intros Hroom. simpl. rewrite (syncSimulatedGame_inRoom st game Hroom). simpl.
  split.
  { unfold jsonDiffers. case_bool_decide as Hsame; simpl; done. }
  split.
  { intros Hover. rewrite Hover. simpl.
    case_bool_decide as Hsame; simpl; done. }
  split.
  { intros ->. simpl. by destruct (SimulatedGame.isXNext game). }
  split; [|done].
  intros ->. simpl. by destruct (SimulatedGame.isXNext game).
Qed.

Lemma syncSimulatedGame_follows_room_witness :
  squares (fst (syncSimulatedGame (setSquares emptyBoard onlineAfterMove)))
  = [PNull; PNull; PNull; PNull; PX; PNull; PNull; PNull; PNull]
  ∧ isMyTurn (fst (syncSimulatedGame (setSquares emptyBoard onlineAfterMove)))
    = false.
Proof.
  destruct (syncSimulatedGame_follows_room
              (setSquares emptyBoard onlineAfterMove)
              (SimulatedGame.mk "4FZYO8"
                 [PNull; PNull; PNull; PNull; PX; PNull; PNull; PNull; PNull]
                 false "host" None (WPlayer PNull)))
    as (_ & _ & Hturn & _).
  - repeat split; vm_compute; (reflexivity || discriminate).
  - split; [vm_compute; reflexivity|]. apply Hturn. vm_compute. reflexivity.
Defined.

(** X12.  The sync effect is idempotent: running it a second time changes
    nothing, in any state. *)
Theorem syncSimulatedGame_idempotent (st : State) :
  fst (syncSimulatedGame (fst (syncSimulatedGame st)))
  = fst (syncSimulatedGame st).
Proof.
  assert (syncSimulatedGame st = (st, []) →
          fst (syncSimulatedGame (fst (syncSimulatedGame st)))
          = fst (syncSimulatedGame st)) as Hnoop.
  { intros Hsame. rewrite Hsame. simpl. by rewrite Hsame. }
  destruct (decide (gameMode st = Online)) as [Hmode|Hmode].
  2:{ apply Hnoop. unfold syncSimulatedGame.
      by rewrite (bool_decide_eq_false_2 _ Hmode). }
  destruct (useSimulatedMode st) eqn:Hsim.
  2:{ apply Hnoop. unfold syncSimulatedGame. by rewrite Hsim, andb_false_r. }
  destruct (String.eqb_spec (roomCode st) "") as [Hcode|Hcode].
  { apply Hnoop. unfold syncSimulatedGame. rewrite Hcode. simpl.
    by rewrite andb_false_r. }
  destruct (simulatedGames st !! roomCode st) as [game|] eqn:Hroom.
  2:{ apply Hnoop. unfold syncSimulatedGame. rewrite Hroom.
      by destruct (_ && _). }
  assert (inRoom st game) as Hin by done.
  rewrite (syncSimulatedGame_inRoom st game Hin). simpl.
  match goal with
  | |- fst (syncSimulatedGame ?s) = _ =>
      rewrite (syncSimulatedGame_inRoom s game ltac:(done))
  end.
  simpl. f_equal.
  - destruct (jsonDiffers (squares st) (SimulatedGame.squares game)) eqn:E;
      simpl; [by rewrite jsonDiffers_refl|by rewrite E].
  - destruct (truthyW (SimulatedGame.winner game)); simpl; [|done].
    destruct (bool_decide (SimulatedGame.winner game = winner st)) eqn:Hw;
      simpl; [by rewrite Hw|].
    by destruct (negb _).
Qed.

(** ** Joining *)

(** X13.  [joinSimulatedGame] never fails.  Afterwards the room exists with
    the joiner seated as O ("simulated" or "guest"), the opponent counts as
    connected and the lobby is closed.  A room that existed keeps its board,
    turn flag, host and outcome; an unknown code gets a fresh room with an
    empty board and X to move.  Other rooms, the local board and the
    history are untouched. *)
Theorem joinSimulatedGame_seats_joiner (gameId : string) (isSimulated : bool)
    (st : State) :
  let st' := fst (joinSimulatedGame gameId isSimulated st) in
  opponentConnected st' = true ∧ showLobby st' = false
  ∧ (∃ game',
       simulatedGames st' !! gameId = Some game'
       ∧ SimulatedGame.playerO game'
         = Some (if isSimulated then "simulated" else "guest")
       ∧ match simulatedGames st !! gameId with
         | Some game =>
             SimulatedGame.squares game' = SimulatedGame.squares game
             ∧ SimulatedGame.isXNext game' = SimulatedGame.isXNext game
             ∧ SimulatedGame.playerX game' = SimulatedGame.playerX game
             ∧ SimulatedGame.winner game' = SimulatedGame.winner game
         | None =>
             SimulatedGame.squares game' = replicate 9 PNull
             ∧ SimulatedGame.isXNext game' = true
             ∧ SimulatedGame.playerX game' = "host"
             ∧ SimulatedGame.winner game' = WPlayer PNull
         end)
  ∧ (∀ code, code ≠ gameId →
             simulatedGames st' !! code = simulatedGames st !! code)
  ∧ squares st' = squares st ∧ history st' = history st.
Proof.
  simpl. unfold joinSimulatedGame, joinSimulatedGame_from.
  destruct (simulatedGames st !! gameId) as [game|] eqn:Hroom;
    [|destruct isSimulated]; simpl;
    (split; [done|]; split; [done|]; split;
     [eexists; split; [by rewrite lookup_insert_eq|done]|];
     split; [|done]; intros code Hne; by rewrite lookup_insert_ne).
Qed.

Lemma joinSimulatedGame_seats_joiner_witness :
  (SimulatedGame.squares
     <$> simulatedGames (fst (joinSimulatedGame "4FZYO8" true onlineAfterMove))
         !! "4FZYO8")
  = Some [PNull; PNull; PNull; PNull; PX; PNull; PNull; PNull; PNull]
  ∧ (SimulatedGame.squares
       <$> simulatedGames (fst (joinSimulatedGame "XYZ" false onlineAfterMove))
           !! "XYZ")
    = Some (replicate 9 PNull).
Proof.
  split.
  - destruct (joinSimulatedGame_seats_joiner "4FZYO8" true onlineAfterMove)
      as (_ & _ & (game' & Hroom & _ & Hkept) & _).
    rewrite Hroom. simpl.
    change (simulatedGames onlineAfterMove !! "4FZYO8")
      with (Some (SimulatedGame.mk "4FZYO8"
                    [PNull; PNull; PNull; PNull; PX; PNull; PNull; PNull; PNull]
                    false "host" None (WPlayer PNull))) in Hkept.
    destruct Hkept as (-> & _). reflexivity.
  - destruct (joinSimulatedGame_seats_joiner "XYZ" false onlineAfterMove)
      as (_ & _ & (game' & Hroom & _ & Hfresh) & _).
    rewrite Hroom. simpl.
    change (simulatedGames onlineAfterMove !! "XYZ")
      with (@None SimulatedGame.t) in Hfresh.
    destruct Hfresh as (-> & _). reflexivity.
Defined.

Lemma length_toUpperCase_nonempty s : s ≠ "" → toUpperCase s ≠ "".
Proof. by destruct s. Qed.

(** X14.  [joinRoom] with an empty code only shows a notice and changes
    nothing.  With a non-empty (ASCII) code, in simulated mode, the local
    player becomes the joiner playing O, the room code is the upper-case
    form of the input, and afterwards a room is registered under that code
    with a guest seated and the opponent connected. *)
Theorem joinRoom_joins (joinRoomCode : string) (st : State) :
  (joinRoomCode = "" → fst (joinRoom joinRoomCode st) = st)
  ∧ (joinRoomCode ≠ "" → asciiText joinRoomCode →
     useSimulatedMode st = true →
     let st' := fst (joinRoom joinRoomCode st) in
     roomCode st' = toUpperCase joinRoomCode ∧ roomCode st' ≠ ""
     ∧ playerSymbol st' = PO ∧ isHost st' = false
     ∧ opponentConnected st' = true
     ∧ ∃ game', simulatedGames st' !! roomCode st' = Some game'
                ∧ SimulatedGame.playerO game' = Some "guest").
Proof.
  split.
  - intros ->. reflexivity.
  - intros Hne _ Hsim. simpl. unfold joinRoom.
    rewrite (proj2 (String.eqb_neq _ _) Hne), Hsim.
    unfold joinSimulatedGame_from.
    pose proof (length_toUpperCase_nonempty _ Hne) as Hupper.
    destruct (simulatedGames st !! toUpperCase joinRoomCode) as [game|];
      simpl; repeat split; try done;
      eexists; (split; [by rewrite lookup_insert_eq|done]).
Qed.

Lemma joinRoom_joins_witness :
  fst (joinRoom "" onlineLobby) = onlineLobby
  ∧ roomCode (fst (joinRoom "ab12cd" onlineLobby)) = "AB12CD".
Proof.
  split.
  - apply (proj1 (joinRoom_joins "" onlineLobby)). reflexivity.
  - destruct (proj2 (joinRoom_joins "ab12cd" onlineLobby)) as (Hcode & _).
    + discriminate.
    + simpl. repeat split; apply Nat.ltb_lt; vm_compute; reflexivity.
    + vm_compute. reflexivity.
    + rewrite Hcode. vm_compute. reflexivity.
Defined.

Lemma upperAscii_idempotent c : upperAscii (upperAscii c) = upperAscii c.
Proof.
  unfold upperAscii.
  destruct ((97 <=? nat_of_ascii c) && (nat_of_ascii c <=? 122)) eqn:E.
  - apply andb_true_iff in E as [Hlo Hhi].
    apply Nat.leb_le in Hlo, Hhi.
    rewrite nat_ascii_embedding by lia.
    rewrite (proj2 (Nat.leb_gt _ _)) by lia. reflexivity.
  - by rewrite E.
Qed.

Lemma toUpperCase_idempotent s : toUpperCase (toUpperCase s) = toUpperCase s.
Proof.
  induction s as [|c s IH]; simpl; [done|].
  by rewrite upperAscii_idempotent, IH.
Qed.

(** X15.  Room codes are case-insensitive on join: typing an (ASCII) code
    in lower or mixed case has exactly the same effect as typing it in upper
    case. *)
Theorem joinRoom_case_insensitive (joinRoomCode : string) (st : State) :
  asciiText joinRoomCode →
  joinRoom (toUpperCase joinRoomCode) st = joinRoom joinRoomCode st.
Proof.
  intros _. unfold joinRoom. rewrite toUpperCase_idempotent.
  destruct joinRoomCode as [|c s]; reflexivity.
Qed.

Lemma joinRoom_case_insensitive_witness :
  joinRoom "AB12CD" onlineLobby = joinRoom "ab12cd" onlineLobby.
Proof.
  apply (joinRoom_case_insensitive "ab12cd" onlineLobby).
  simpl. repeat split; apply Nat.ltb_lt; vm_compute; reflexivity.
Defined.

(** ** Reset and mode change *)

Lemma resetGame_from_keeps env notify st :
  gameMode (fst (resetGame_from env notify st)) = gameMode st
  ∧ roomCode (fst (resetGame_from env notify st)) = roomCode st
  ∧ opponentConnected (fst (resetGame_from env notify st)) = opponentConnected st
  ∧ showLobby (fst (resetGame_from env notify st)) = showLobby st
  ∧ useSimulatedMode (fst (resetGame_from env notify st)) = useSimulatedMode st
  ∧ playerSymbol (fst (resetGame_from env notify st)) = playerSymbol st.
Proof.
  split; [reset_cases env; reflexivity|].
  split; [reset_cases env; reflexivity|].
  split; [reset_cases env; reflexivity|].
  split; [reset_cases env; reflexivity|].
  split; reset_cases env; reflexivity.
Qed.

(** X16.  In an online session with a room, [resetGame] also resets the
    room: its board is emptied, X is to move and its outcome is cleared,
    while both seats stay taken and the opponent stays connected; it is the
    local player's turn exactly when the local player is X.  Other rooms
    are untouched.  Outside the online mode the registry and [isMyTurn] are
    left alone. *)
Theorem resetGame_resets_room (notifyOpponent : bool) (st : State) :
  (∀ game, inRoom st game →
     simulatedGames (fst (resetGame notifyOpponent st)) !! roomCode st
     = Some (SimulatedGame.mk (SimulatedGame.id game) (replicate 9 PNull) true
               (SimulatedGame.playerX game) (SimulatedGame.playerO game)
               (WPlayer PNull))
     ∧ (∀ code, code ≠ roomCode st →
                simulatedGames (fst (resetGame notifyOpponent st)) !! code
                = simulatedGames st !! code)
     ∧ isMyTurn (fst (resetGame notifyOpponent st))
       = bool_decide (playerSymbol st = PX)
     ∧ opponentConnected (fst (resetGame notifyOpponent st))
       = opponentConnected st)
  ∧ (gameMode st ≠ Online →
     simulatedGames (fst (resetGame notifyOpponent st)) = simulatedGames st
     ∧ isMyTurn (fst (resetGame notifyOpponent st)) = isMyTurn st).
Proof.
  split.
  - intros game (Hmode & Hsim & Hcode & Hroom).
    unfold resetGame, resetGame_from.
    rewrite Hmode, Hsim, (roomCode_eqb _ Hcode), Hroom. simpl.
    split; [by rewrite lookup_insert_eq|]. split; [|done].
    intros code Hne. by rewrite lookup_insert_ne.
  - intros Hmode. unfold resetGame, resetGame_from.
    by rewrite (bool_decide_eq_false_2 _ Hmode).
Qed.

Lemma resetGame_resets_room_witness :
  (SimulatedGame.squares
     <$> simulatedGames (fst (resetGame true onlineAfterMove)) !! "4FZYO8")
  = Some (replicate 9 PNull)
  ∧ isMyTurn (fst (resetGame true onlineAfterMove)) = true.
Proof.
  destruct (proj1 (resetGame_resets_room true onlineAfterMove)
              (SimulatedGame.mk "4FZYO8"
                 [PNull; PNull; PNull; PNull; PX; PNull; PNull; PNull; PNull]
                 false "host" None (WPlayer PNull)))
    as (Hroom & _ & Hturn & _).
  - repeat split; vm_compute; (reflexivity || discriminate).
  - split.
    + change (roomCode onlineAfterMove) with "4FZYO8" in Hroom.
      rewrite Hroom. reflexivity.
    + rewrite Hturn. vm_compute. reflexivity.
Defined.

(** X17.  [setMode] with the current mode does nothing.  With another mode
    it starts a fresh game in that mode: empty board, empty history, current
    move 0, no outcome, X to move.  Entering the online mode opens the lobby
    in simulated mode; leaving for a local mode forgets the room code and
    the opponent. *)
Theorem setMode_switches (mode : GameMode) (st : State) :
  (mode = gameMode st → setMode mode st = (st, []))
  ∧ (mode ≠ gameMode st →
     let st' := fst (setMode mode st) in
     gameMode st' = mode
     ∧ squares st' = replicate 9 PNull ∧ history st' = []
     ∧ currentMove st' = 0 ∧ winner st' = WPlayer PNull ∧ isXNext st' = true
     ∧ (mode = Online →
        showLobby st' = true ∧ useSimulatedMode st' = true
        ∧ roomCode st' = roomCode st)
     ∧ (mode ≠ Online → roomCode st' = "" ∧ opponentConnected st' = false)).
Proof.
  split.
  - intros Hsame. unfold setMode. by rewrite (bool_decide_eq_true_2 _ Hsame).
  - intros Hother. simpl. unfold setMode.
    rewrite (bool_decide_eq_false_2 _ Hother).
    pose proof (resetGame_from_fields st false (setGameMode mode st))
      as (Hsq & Hh & Hc & Hw & Hx).
    pose proof (resetGame_from_keeps st false (setGameMode mode st))
      as (Hm & Hr & _).
    destruct (resetGame_from st false (setGameMode mode st)) as [st2 eff].
    simpl in *.
    destruct (decide (mode = Online)) as [Honline|Hlocal].
    + rewrite (bool_decide_eq_true_2 _ Honline). simpl.
      repeat split; done.
    + rewrite (bool_decide_eq_false_2 _ Hlocal). simpl.
      repeat split; done.
Qed.

Lemma setMode_switches_witness :
  setMode Local localThreeMoves = (localThreeMoves, [])
  ∧ squares (fst (setMode Computer localThreeMoves)) = replicate 9 PNull
  ∧ gameMode (fst (setMode Computer localThreeMoves)) = Computer.
Proof.
  split.
  - apply (proj1 (setMode_switches Local localThreeMoves)).
    vm_compute. reflexivity.
  - destruct (proj2 (setMode_switches Computer localThreeMoves))
      as (Hmode & Hsq & _).
    + vm_compute. discriminate.
    + split; [exact Hsq|exact Hmode].
Defined.

(** ** The status line *)

Lemma hasLine_calculateWinner squares p :
  exclusive squares → p = PX ∨ p = PO →
  hasLine squares p ↔ calculateWinner squares = WPlayer p.
Proof.
  intros Hex Hp. unfold calculateWinner. split.
  - intros (l & Hl & Hw).
    destruct (scanLines squares lines) as [q|] eqn:E.
    + apply scanLines_Some in E as (k & l' & Hk & Hw' & _).
      apply list_elem_of_lookup_2 in Hk.
      destruct (decide (q = p)) as [->|Hne]; [done|].
      destruct Hex. pose proof Hw' as (Hq & _).
      destruct Hp as [->| ->]; destruct q; try done;
        split; eexists; eauto.
    + destruct (proj1 (scanLines_None _ _) E l p Hl Hw).
  - destruct (scanLines squares lines) as [q|] eqn:E.
    + intros [= ->]. apply scanLines_Some in E as (k & l & Hk & Hw & _).
      exists l. split; [by apply list_elem_of_lookup_2 in Hk|done].
    + destruct (everyNotNull squares); [done|].
      intros [= <-]. by destruct Hp.
Qed.

(** X18.  Once the stored winner is the outcome of the board (that is, after
    the winner effect has run), and X and O do not both own a line (as on
    every board reached by play), the status line tells the truth about the
    board: it reads "Winner: X" (or "Winner: O") exactly when that player
    owns a complete line, and "It's a draw!" exactly when no line is
    complete and no square is empty.  In the render between a deciding move
    and the winner effect the stored winner lags and the status line with
    it. *)
Theorem getStatus_truthful (st : State) :
  winner st = calculateWinner (squares st) →
  ¬ (hasLine (squares st) PX ∧ hasLine (squares st) PO) →
  (getStatus st = "Winner: X" ↔ hasLine (squares st) PX)
  ∧ (getStatus st = "Winner: O" ↔ hasLine (squares st) PO)
  ∧ (getStatus st = "It's a draw!" ↔
     noWin (squares st) ∧ ∀ c, c ∈ squares st → c ≠ PNull).
Proof.
  intros Hw Hex.
  rewrite (hasLine_calculateWinner _ PX Hex) by auto.
  rewrite (hasLine_calculateWinner _ PO Hex) by auto.
  assert (calculateWinner (squares st) = WDraw ↔
          noWin (squares st) ∧ ∀ c, c ∈ squares st → c ≠ PNull) as <-.
  { unfold calculateWinner. rewrite noWin_scanLines, <- everyNotNull_true.
    destruct (scanLines (squares st) lines); [by split; [|intros [? _]]|].
    destruct (everyNotNull (squares st)); [by split|by split; [|intros [_ ?]]]. }
  rewrite <- Hw. unfold getStatus.
  destruct (winner st) as [[| | |]|]; simpl;
    try (by repeat split; intros; try discriminate);
    destruct (gameMode st); simpl;
    try (by repeat split; intros; try discriminate);
    destruct (isMyTurn st), (isXNext st); simpl;
    by repeat split; intros; try discriminate.
Qed.

Lemma getStatus_truthful_witness :
  getStatus localWonByX = "Winner: X" ↔ hasLine (squares localWonByX) PX.
Proof.
  apply (getStatus_truthful localWonByX).
  - vm_compute. reflexivity.
  - assert (reachable localWonByX) as Hreach
      by (unfold localWonByX; apply reachable_run; constructor).
    by destruct (reachable_sessionInv _ Hreach) as (_ & Hex & _).
Defined.

(** Before the winner effect has run the status line lags: right after X's
    winning click it still announces the next player. *)
Example getStatus_lags_before_effect :
  getStatus localWinningClick = "Next player: O"
  ∧ calculateWinner (squares localWinningClick) = WPlayer PX.
Proof. split; vm_compute; reflexivity. Qed.

(** ** Alternation of turns in the local mode *)

Lemma countMark_cons q c squares :
  countMark q (c :: squares)
  = (if decide (c = q) then 1 else 0) + countMark q squares.
Proof. unfold countMark. rewrite filter_cons. by case_decide. Qed.

(** Replacing one square changes each count by what leaves and what comes. *)
Lemma countMark_insert q (squares : list Player) i old new :
  squares !! i = Some old →
  countMark q (<[i:=new]> squares) + (if decide (old = q) then 1 else 0)
  = countMark q squares + (if decide (new = q) then 1 else 0).
Proof.
  revert i. induction squares as [|c squares IH]; intros i Hi; [done|].
  destruct i as [|i]; simpl in *.
  - injection Hi as ->. rewrite !countMark_cons. lia.
  - rewrite !countMark_cons. specialize (IH i Hi). lia.
Qed.

Lemma legalPlay_counts board xNext :
  legalPlay board xNext →
  countMark PX board = countMark PO board + (if xNext then 0 else 1).
Proof.
  induction 1 as [|board xNext i Hplay IH _ Hi Hnull]; [reflexivity|].
  pose proof (legalPlay_length _ _ Hplay) as Hlen.
  unfold aset. rewrite decide_True by lia.
  unfold aget in Hnull.
  destruct (board !! i) as [c|] eqn:Hc; simpl in Hnull; [subst c|done].
  pose proof (countMark_insert PX board i PNull (if xNext then PX else PO) Hc)
    as HX.
  pose proof (countMark_insert PO board i PNull (if xNext then PX else PO) Hc)
    as HO.
  destruct xNext; simpl in *;
    repeat (case_decide; try done); lia.
Qed.

Lemma local_step_legalPlay (i : nat) (st : State) :
  i < 9 →
  gameMode st = Local ∧ winner st = calculateWinner (squares st)
  ∧ legalPlay (squares st) (isXNext st) →
  gameMode (step (EvClick (Z.of_nat i)) st) = Local
  ∧ winner (step (EvClick (Z.of_nat i)) st)
    = calculateWinner (squares (step (EvClick (Z.of_nat i)) st))
  ∧ legalPlay (squares (step (EvClick (Z.of_nat i)) st))
      (isXNext (step (EvClick (Z.of_nat i)) st)).
Proof.
  intros Hi (Hmode & Hwinner & Hplay).
  split; [|split].
  - unfold step. simpl.
    destruct (calculateWinnerEffect_core
                (fst (handleSquareClick (Z.of_nat i) st))) as (_ & _ & _ & ->).
    by rewrite handleSquareClick_gameMode.
  - unfold step.
    by destruct (calculateWinnerEffect_squares
                   (fst (handle (EvClick (Z.of_nat i)) st))) as (-> & _ & ->).
  - by apply local_click_legalPlay.
Qed.

(** X19.  Turns alternate strictly in the local two-player mode.  After any
    sequence of clicks on the nine squares, starting from a fresh local
    game, the board still has nine squares, none of them [undefined], and X
    has exactly as many marks as O when X is to move and exactly one more
    when O is to move. *)
Theorem local_play_alternates (cells : list nat) :
  Forall (λ i, i < 9) cells →
  let st := run ((λ i, EvClick (Z.of_nat i)) <$> cells) localStart in
  countMark PX (squares st)
  = countMark PO (squares st) + (if isXNext st then 0 else 1)
  ∧ length (squares st) = 9
  ∧ Forall (λ c, c ≠ PUndefined) (squares st)
  ∧ gameMode st = Local.
Proof.
  intros Hcells. simpl.
  assert (∀ st,
            gameMode st = Local ∧ winner st = calculateWinner (squares st)
            ∧ legalPlay (squares st) (isXNext st) →
            let st' := run ((λ i, EvClick (Z.of_nat i)) <$> cells) st in
            gameMode st' = Local
            ∧ legalPlay (squares st') (isXNext st')) as Hrun.
  { induction Hcells as [|i cells Hi _ IH]; intros st Hst; simpl.
    - by destruct Hst as (? & _ & ?).
    - apply IH. by apply local_step_legalPlay. }
  destruct (Hrun localStart) as [Hmode Hplay].
  { split; [reflexivity|]. split; [reflexivity|]. apply legalPlay_start. }
  split; [by apply legalPlay_counts|].
  split; [by apply (legalPlay_length _ _ Hplay)|].
  split; [by apply (legalPlay_defined _ _ Hplay)|done].
Qed.

Lemma local_play_alternates_witness :
  countMark PX (squares (run ((λ i, EvClick (Z.of_nat i)) <$> [0; 1; 4; 1; 4])
                           localStart))
  = countMark PO (squares (run ((λ i, EvClick (Z.of_nat i)) <$> [0; 1; 4; 1; 4])
                             localStart))
    + (if isXNext (run ((λ i, EvClick (Z.of_nat i)) <$> [0; 1; 4; 1; 4])
                     localStart)
       then 0 else 1).
Proof.
  apply (local_play_alternates [0; 1; 4; 1; 4]).
  repeat constructor.
Defined.

(** ** A round of online play *)




(** ** Creating a room and the scheduled join *)

(** X21.  A host who has just created a room cannot move: every click is
    turned down until an opponent is connected.  The join that [createRoom]
    schedules runs with the state of the render in which the room was
    created; if no room was registered under the new code in that state, it
    leaves a room with an empty board, X to move, the host seated and the
    simulated opponent as O, marks the opponent as connected and closes the
    lobby, without touching the local board. *)
Theorem createRoom_then_join (randomText : string) (st : State) :
  gameMode st = Online → useSimulatedMode st = true →
  let st1 := fst (createRoom randomText st) in
  let code := roomCode st1 in
  let st2 := fst (joinSimulatedGame_from st code true st1) in
  simulatedGames st !! code = None →
  snd (createRoom randomText st)
  = [SetTimeout (CbJoinSimulatedGame code true) 3000%Z;
     Toast "Room created"
       ("Share the code " +:+ code +:+ " with your friend.")]
  ∧ (∀ i, fst (handleSquareClick i st1) = st1)
  ∧ simulatedGames st2 !! code
    = Some (SimulatedGame.mk code (replicate 9 PNull) true "host"
              (Some "simulated") (WPlayer PNull))
  ∧ opponentConnected st2 = true ∧ showLobby st2 = false
  ∧ squares st2 = squares st ∧ playerSymbol st2 = PX ∧ isHost st2 = true.
Proof.
  intros Hmode Hsim. simpl.
  unfold createRoom, initializeSimulatedGame. rewrite Hsim. simpl.
  intros Hfresh. split; [done|]. split.
  - intros i. unfold handleSquareClick. simpl. rewrite Hmode. simpl.
    destruct (_ || _); [done|]. by destruct (isMyTurn st).
  - unfold joinSimulatedGame_from. rewrite Hfresh. simpl.
    by rewrite lookup_insert_eq.
Qed.

Lemma createRoom_then_join_witness :
  opponentConnected
    (fst (joinSimulatedGame_from onlineLobby "4FZYO8" true
            (fst (createRoom "0.4fzyo82mvyr" onlineLobby)))) = true.
Proof.
  destruct (createRoom_then_join "0.4fzyo82mvyr" onlineLobby)
    as (_ & _ & _ & Hconn & _).
  - vm_compute. reflexivity.
  - vm_compute. reflexivity.
  - vm_compute. reflexivity.
  - exact Hconn.
Defined.

(** ** The winner effect *)

(** X22.  One run of the winner effect stores the outcome of the current
    board and leaves the board, the history, the current move and the turn
    alone.  It notifies the user exactly when the board is decided: a draw
    gives one toast, a win gives a toast and the timer that hides the
    confetti.  Outside the online mode, and whenever the board is undecided,
    it leaves the room registry alone. *)
Theorem calculateWinnerEffect_records (st : State) :
  winner (fst (calculateWinnerEffect st)) = calculateWinner (squares st)
  ∧ sameGame st (fst (calculateWinnerEffect st))
  ∧ (snd (calculateWinnerEffect st) = [] ↔
     calculateWinner (squares st) = WPlayer PNull)
  ∧ (calculateWinner (squares st) = WDraw →
     snd (calculateWinnerEffect st)
     = [Toast "It's a draw!" "No one wins this round."])
  ∧ (∀ p, calculateWinner (squares st) = WPlayer p → p ≠ PNull →
          snd (calculateWinnerEffect st)
          = [Toast ("Player " +:+ playerName p +:+ " wins!")
               "Congratulations on your victory!";
             SetTimeout CbHideConfetti 6000%Z])
  ∧ (calculateWinner (squares st) = WPlayer PNull ∨ gameMode st ≠ Online →
     simulatedGames (fst (calculateWinnerEffect st)) = simulatedGames st).
Proof.
  split; [by destruct (calculateWinnerEffect_squares st) as (_ & _ & ?)|].
  split; [apply calculateWinnerEffect_sameGame|].
  unfold calculateWinnerEffect.
  destruct (truthyW (calculateWinner (squares st))) eqn:Hover.
  - assert (calculateWinner (squares st) ≠ WPlayer PNull) as Hne.
    { intros Hnull. by rewrite Hnull in Hover. }
    split.
    { destruct (calculateWinner (squares st)); simpl; split; done. }
    split.
    { intros Hdraw. by rewrite Hdraw. }
    split.
    { intros p Hp _. by rewrite Hp. }
    intros [Hnull|Hmode]; [done|].
    rewrite (bool_decide_eq_false_2 _ Hmode).
    by destruct (calculateWinner (squares st)).
  - apply calculateWinner_falsy in Hover. simpl.
    split; [done|]. split; [by rewrite Hover|]. split; [|done].
    intros p Hp Hne. congruence.
Qed.

Lemma calculateWinnerEffect_records_witness :
  winner (fst (calculateWinnerEffect localWinningClick)) = WPlayer PX
  ∧ snd (calculateWinnerEffect localWinningClick)
    = [Toast "Player X wins!" "Congratulations on your victory!";
       SetTimeout CbHideConfetti 6000%Z]
  ∧ simulatedGames (fst (calculateWinnerEffect localWinningClick))
    = simulatedGames localWinningClick
  ∧ snd (calculateWinnerEffect localThreeMoves) = [].
Proof.
  destruct (calculateWinnerEffect_records localWinningClick)
    as (Hw & _ & _ & _ & Hwin & Hrooms).
  destruct (calculateWinnerEffect_records localThreeMoves)
    as (_ & _ & Hquiet & _).
  split; [rewrite Hw; vm_compute; reflexivity|].
  split; [apply (Hwin PX); [vm_compute; reflexivity|discriminate]|].
  split; [apply Hrooms; right; vm_compute; discriminate|].
  apply Hquiet. vm_compute. reflexivity.
Defined.

(** ** Marks in the history *)

Lemma countTruthy_cons c squares :
  countTruthy (c :: squares)
  = (if truthy c then 1 else 0) + countTruthy squares.
Proof.
  unfold countTruthy. rewrite filter_cons.
  destruct (truthy c); by case_decide.
Qed.

Lemma countTruthy_app l1 l2 :
  countTruthy (l1 ++ l2) = countTruthy l1 + countTruthy l2.
Proof. unfold countTruthy. by rewrite filter_app, length_app. Qed.

Lemma countTruthy_replicate_undefined n :
  countTruthy (replicate n PUndefined) = 0.
Proof. induction n as [|n IH]; [done|]. simpl. by rewrite countTruthy_cons. Qed.

Lemma countTruthy_insert (squares : list Player) i old new :
  squares !! i = Some old → truthy old = false → truthy new = true →
  countTruthy (<[i:=new]> squares) = S (countTruthy squares).
Proof.
  revert i. induction squares as [|c squares IH]; intros i Hi Hold Hnew; [done|].
  destruct i as [|i]; simpl in *.
  - injection Hi as ->. rewrite !countTruthy_cons, Hold, Hnew. lia.
  - rewrite !countTruthy_cons. rewrite (IH i) by done. lia.
Qed.

(** Marking a square that holds no mark adds exactly one mark, also when
    the write grows the array. *)
Lemma countTruthy_aset squares i p :
  truthy (aget squares i) = false → truthy p = true →
  countTruthy (aset squares i p) = S (countTruthy squares).
Proof.
  intros Hfree Hp. unfold aset, aget in *. case_decide as Hi.
  - destruct (lookup_lt_is_Some_2 squares i Hi) as [c Hc].
    rewrite Hc in Hfree. by apply (countTruthy_insert _ _ c).
  - rewrite !countTruthy_app, countTruthy_replicate_undefined.
    rewrite countTruthy_cons, Hp. unfold countTruthy at 2. simpl. lia.
Qed.

Lemma jumpToMove_gameMode move st :
  gameMode (fst (jumpToMove move st)) = gameMode st
  ∧ history (fst (jumpToMove move st)) = history st.
Proof.
  unfold jumpToMove.
  destruct (_ || _); simpl; [done|].
  destruct (bool_decide _); simpl; [done|].
  by destruct (history st !! Z.to_nat move).
Qed.

Lemma setMode_gameMode mode st : gameMode (fst (setMode mode st)) = mode.
Proof.
  unfold setMode. case_bool_decide as Hsame; [done|].
  pose proof (resetGame_from_keeps st false (setGameMode mode st)) as (Hm & _).
  destruct (resetGame_from st false (setGameMode mode st)) as [st2 eff].
  simpl in *. by destruct (bool_decide (mode = Online)).
Qed.

Lemma handleSquareClick_marksInv (i : Z) (st : State) :
  (0 ≤ i)%Z → marksInv st → marksInv (fst (handleSquareClick i st)).
Proof.
  intros Hi (Hmode & Hmarks & Hpointer).
  destruct (handleSquareClick_decide i st) as [->|[Hacc|[_ ->]]]; [done| |done].
  split; [by rewrite handleSquareClick_gameMode|].
  split; [|by apply handleSquareClick_pointerInv].
  destruct (handleSquareClick_accepted i st Hacc) as (_ & -> & _).
  destruct Hacc as (_ & Hfree & _).
  assert (truthy (moverMark st) = true) as Hmark.
  { unfold moverMark. rewrite (bool_decide_eq_false_2 _ Hmode).
    by destruct (isXNext st). }
  assert (countTruthy (asetZ (squares st) i (moverMark st))
          = S (countTruthy (squares st))) as Hnew.
  { replace i with (Z.of_nat (Z.to_nat i)) in * by lia.
    rewrite agetZ_of_nat in Hfree. rewrite asetZ_of_nat.
    by apply countTruthy_aset. }
  intros k e Hk. apply lookup_app_Some in Hk as [Hk|[Hlen Hk]].
  - apply lookup_take_Some in Hk as [Hk _]. by apply Hmarks.
  - apply list_lookup_singleton_Some in Hk as [Hk0 <-]. simpl. rewrite Hnew.
    destruct Hpointer as [(Hh & Hc & Hsq)|(e & He & Hsq)].
    + rewrite Hh, take_nil in *. rewrite Hsq.
      change (countTruthy emptyBoard) with 0. simpl in *. lia.
    + rewrite <- Hsq, (Hmarks _ _ He).
      apply lookup_lt_Some in He.
      rewrite length_take in *. lia.
Qed.

Lemma handle_marksInv ev st :
  deviceEvent ev → marksInv st → marksInv (fst (handle ev st)).
Proof.
  intros Hev Hinv. destruct ev as [i|move| |mode|random]; unfold handle.
  - by apply handleSquareClick_marksInv.
  - destruct Hinv as (Hmode & Hmarks & Hpointer).
    destruct (jumpToMove_gameMode move st) as [Hm Hh].
    split; [by rewrite Hm|]. split; [by rewrite Hh|].
    by apply jumpToMove_pointerInv.
  - destruct Hinv as (Hmode & _ & _). unfold resetGame.
    destruct (resetGame_from_fields st true st) as (Hsq & Hh & Hc & _).
    destruct (resetGame_from_keeps st true st) as (Hm & _).
    split; [by rewrite Hm|]. split; [by rewrite Hh|by left].
  - simpl in Hev.
    destruct (setMode_fields mode st) as [->|(Hsq & Hh & Hc)]; [done|].
    split; [by rewrite setMode_gameMode|]. split; [by rewrite Hh|by left].
  - done.
Qed.

(** X23.  In play on one device (clicks, history jumps, resets and switches
    between the two local tabs), the history entry at index [k] is always a
    board with exactly [k + 1] marks.  In particular no entry holds the
    empty board: index 0, which the history panel labels "Game start", is
    the board after the first move. *)
Theorem history_entry_marks (evs : list Event) :
  Forall deviceEvent evs →
  ∀ k e, history (run evs initialState) !! k = Some e →
         countTruthy (GameHistory.squares e) = k + 1
         ∧ GameHistory.squares e ≠ replicate 9 PNull.
Proof.
  intros Hevs.
  assert (∀ st, marksInv st → marksInv (run evs st)) as Hrun.
  { induction Hevs as [|ev evs Hev _ IH]; intros st Hst; [done|].
    simpl. apply IH. apply (handle_marksInv ev) in Hst; [|done].
    unfold step, marksInv, pointerInv.
    destruct (calculateWinnerEffect_core (fst (handle ev st)))
      as (-> & -> & -> & ->).
    exact Hst. }
  destruct (Hrun initialState) as (_ & Hmarks & _).
  { split; [discriminate|]. split; [intros k e Hk; discriminate Hk|by left]. }
  intros k e Hk. pose proof (Hmarks k e Hk) as Hcount.
  split; [done|]. intros Hempty. rewrite Hempty in Hcount.
  change (countTruthy (replicate 9 PNull)) with 0 in Hcount. lia.
Qed.

Lemma history_entry_marks_witness :
  countTruthy [PX; PNull; PNull; PNull; PNull; PNull; PNull; PNull; PNull]
  = 0 + 1.
Proof.
  assert (Forall deviceEvent [EvSetMode Local; EvClick 0; EvClick 1; EvClick 4])
    as Hevs by (repeat constructor; done).
  assert (history (run [EvSetMode Local; EvClick 0; EvClick 1; EvClick 4]
                     initialState) !! 0
          = Some (GameHistory.mk
                    [PX; PNull; PNull; PNull; PNull; PNull; PNull; PNull; PNull]
                    PX)) as He by (vm_compute; reflexivity).
  exact (proj1 (history_entry_marks _ Hevs 0 _ He)).
Defined.
